(** * Audio News Summarizer: decode pipeline and playback controller

    A shallow embedding of [src/App.tsx] and [src/services/geminiService.ts].
    The React component is modelled as a world record (component state, refs,
    the store of Web Audio source nodes) on which every handler is an action
    of a small state-and-exception monad; asynchronous code is cut at its
    [await]s and the event loop delivers the continuations as events. *)

From Stdlib Require Import ZArith QArith Lia List Bool.
From Stdlib.Strings Require Import String Ascii Byte.
From stdpp Require Import base option list.
Import ListNotations.

Local Open Scope string_scope.
Local Open Scope list_scope.

(** ** JavaScript values shared by all modules *)

(** What a [throw] carries: an [Error] instance (with its [name] and
    [message]) or any other value. *)
Inductive Exn : Type :=
| JsError (name message : string)
| Thrown (value : string).

(** The completion of a call: a normal return or a thrown exception. *)
Inductive outcome (A : Type) : Type :=
| Ret (a : A)
| Throw (e : Exn).
Arguments Ret {A} a.
Arguments Throw {A} e.

(** [err instanceof Error ? err.message : "An unknown error occurred. ..."] *)
Definition error_text (e : Exn) : string :=
  match e with
  | JsError _ m => m
  | Thrown _ => "An unknown error occurred. Please try again."
  end.

(** The value of a byte as an integer in [0, 256). *)
Definition byte_val (b : byte) : Z := Z.of_N (Byte.to_N b).

(** The byte whose value is [v mod 256]. *)
Definition byte_of_Z (v : Z) : byte :=
  match Byte.of_N (Z.to_N (v mod 256)) with
  | Some b => b
  | None => x00
  end.

(** ** [utils/audio]: byte decoder and PCM-to-sample converter *)

Module Audio.

(** An [AudioBuffer]: one array of samples per channel.  A sample is the
    quotient of a 16-bit integer by 2^15; that quotient is exactly
    representable in binary32, so the rational is the stored float. *)
Record AudioBuffer : Type := mkAudioBuffer {
  sampleRate : Z;
  numberOfChannels : nat;
  channelData : list (list Q)
}.

(** *** Base64 alphabet (RFC 4648, standard) *)

Definition pad : ascii := "="%char.

Definition is_pad (c : ascii) : bool := Ascii.eqb c pad.

Definition sextet_char (s : Z) : ascii :=
  let code :=
    if (s <? 26)%Z then (65 + s)%Z
    else if (s <? 52)%Z then (97 + (s - 26))%Z
    else if (s <? 62)%Z then (48 + (s - 52))%Z
    else if (s =? 62)%Z then 43%Z
    else 47%Z in
  ascii_of_N (Z.to_N code).

Definition char_sextet (c : ascii) : option Z :=
  let n := Z.of_N (N_of_ascii c) in
  if ((65 <=? n) && (n <=? 90))%Z then Some (n - 65)%Z
  else if ((97 <=? n) && (n <=? 122))%Z then Some (n - 97 + 26)%Z
  else if ((48 <=? n) && (n <=? 57))%Z then Some (n - 48 + 52)%Z
  else if (n =? 43)%Z then Some 62%Z
  else if (n =? 47)%Z then Some 63%Z
  else None.

(** The 24-bit group of up to three bytes, and its four sextets. *)
Definition group24 (b0 b1 b2 : Z) : Z := (b0 * 65536 + b1 * 256 + b2)%Z.

Definition sextet (n : Z) (i : Z) : Z := ((n / 64 ^ (3 - i)) mod 64)%Z.

Definition ungroup (s0 s1 s2 s3 : Z) : Z :=
  (s0 * 262144 + s1 * 4096 + s2 * 64 + s3)%Z.

(** [base64Encode]: the standard encoding the round-trip property of the
    byte decoder is stated against. *)
Fixpoint base64Encode (bytes : list byte) : string :=
  match bytes with
  | [] => EmptyString
  | [b0] =>
      let n := group24 (byte_val b0) 0 0 in
      String (sextet_char (sextet n 0)) (String (sextet_char (sextet n 1))
        (String pad (String pad EmptyString)))
  | [b0; b1] =>
      let n := group24 (byte_val b0) (byte_val b1) 0 in
      String (sextet_char (sextet n 0)) (String (sextet_char (sextet n 1))
        (String (sextet_char (sextet n 2)) (String pad EmptyString)))
  | b0 :: b1 :: b2 :: rest =>
      let n := group24 (byte_val b0) (byte_val b1) (byte_val b2) in
      String (sextet_char (sextet n 0)) (String (sextet_char (sextet n 1))
        (String (sextet_char (sextet n 2)) (String (sextet_char (sextet n 3))
          (base64Encode rest))))
  end.

Definition DecodeError : Exn := JsError "DecodeError" "Invalid base64 input.".

(** The bytes of one four-character group; [None] on a character outside
    the alphabet. *)
Definition decode_group (c0 c1 c2 c3 : ascii) (keep : nat) : option (list byte) :=
  s0 ← char_sextet c0;
  s1 ← char_sextet c1;
  s2 ← (if (keep <=? 1)%nat then Some 0%Z else char_sextet c2);
  s3 ← (if (keep <=? 2)%nat then Some 0%Z else char_sextet c3);
  let m := ungroup s0 s1 s2 s3 in
  Some (take keep [byte_of_Z (m / 65536); byte_of_Z (m / 256); byte_of_Z m]).

(** Groups of four characters; padding is legal only as the last one or
    two characters of the last group. *)
Fixpoint decode_groups (s : string) : option (list byte) :=
  match s with
  | EmptyString => Some []
  | String c0 (String c1 (String c2 (String c3 rest))) =>
      if is_pad c3 then
        match rest with
        | EmptyString =>
            if is_pad c2 then decode_group c0 c1 c2 c3 1
            else decode_group c0 c1 c2 c3 2
        | _ => None
        end
      else
        hd ← decode_group c0 c1 c2 c3 3;
        tl ← decode_groups rest;
        Some (hd ++ tl)
  | _ => None
  end.

(** Modelled from the spec: [decode] of [utils/audio], which [App.tsx]
    imports and whose file is not part of the sources.  Spec 4.1: standard
    base64 text to the bytes it encodes; the empty string gives the empty
    buffer; a character outside the alphabet, a length that is not a
    multiple of four or padding in an illegal position fails with
    [DecodeError]; no partial success. *)
Definition decode (base64Text : string) : outcome (list byte) :=
  match decode_groups base64Text with
  | Some bytes => Ret bytes
  | None => Throw DecodeError
  end.

(** *** PCM16 conversion *)

(** One signed 16-bit little-endian integer. *)
Definition int16_le (lo hi : byte) : Z :=
  let u := (byte_val lo + 256 * byte_val hi)%Z in
  if (32768 <=? u)%Z then (u - 65536)%Z else u.

(** The 16-bit integers read sequentially; a trailing odd byte is not a
    sample. *)
Fixpoint pcm16 (raw : list byte) : list Z :=
  match raw with
  | lo :: hi :: rest => int16_le lo hi :: pcm16 rest
  | _ => []
  end.

(** [v / 32768.0] *)
Definition to_float (v : Z) : Q := v # 32768.

Definition frameCount (len channelCount : nat) : nat :=
  (len / (2 * channelCount))%nat.

(** The samples of channel [c]: interleave position [i * channelCount + c]
    of frame [i]. *)
Definition channel_samples (samples : list Z) (channelCount frames c : nat)
  : list Q :=
  (fun i => to_float (nth (i * channelCount + c) samples 0%Z))
    <$> seq 0 frames.

Definition ConversionError : Exn :=
  JsError "ConversionError" "Invalid audio format parameters.".

(** The state of the output device context. *)
Inductive ContextState : Type := Suspended | Running.

Record AudioContext : Type := mkAudioContext {
  state : ContextState;
  resumePending : bool
}.

(** Modelled from the spec: [decodeAudioData] of [utils/audio], whose file
    is not part of the sources.  Spec 4.2: fails with [ConversionError] when
    [sampleRate <= 0] or [channelCount <= 0]; otherwise every channel holds
    [floor(raw.length / (2 * channelCount))] samples, each a 16-bit
    little-endian signed integer divided by 32768.0, routed by interleave
    position; trailing bytes of an incomplete frame are dropped.  The device
    context is read-only here. *)
Definition decodeAudioData (raw : list byte) (ctx : AudioContext)
    (sampleRate channelCount : Z) : outcome AudioBuffer :=
  if ((sampleRate <=? 0) || (channelCount <=? 0))%Z then Throw ConversionError
  else
    let C := Z.to_nat channelCount in
    let frames := frameCount (length raw) C in
    Ret {| sampleRate := sampleRate;
           numberOfChannels := C;
           channelData :=
             channel_samples (pcm16 raw) C frames <$> seq 0 C |}.

End Audio.

(** ** [services/geminiService]: the two remote collaborators *)

Module GeminiService.

(** The part of a [GenerateContentResponse] the code reads; every field the
    code reaches through [?.] may be missing. *)
Record Blob : Type := mkBlob { data : option string }.
Record Part : Type := mkPart { inlineData : option Blob }.
Record Content : Type := mkContent { parts : option (list Part) }.
Record Candidate : Type := mkCandidate { content : option Content }.
Record GenerateContentResponse : Type := mkResponse {
  text : string;
  candidates : option (list Candidate)
}.

(** [summarizeArticleFromUrl]: [reply] is the completion of the awaited
    [ai.models.generateContent] call. *)
Definition summarizeArticleFromUrl (reply : outcome GenerateContentResponse)
  : outcome string :=
  match reply with
  | Ret response => Ret (text response)
  | Throw _ => Throw (JsError "Error" "Failed to get summary from the article URL.")
  end.

(** [response.candidates?.[0]?.content?.parts?.[0]?.inlineData?.data] *)
Definition inline_audio (response : GenerateContentResponse) : option string :=
  cs ← candidates response;
  c ← head cs;
  ct ← content c;
  ps ← parts ct;
  p ← head ps;
  blob ← inlineData p;
  data blob.

(** [v || null] on a value that is a string or [undefined]: the empty
    string is falsy. *)
Definition or_null (v : option string) : option string :=
  match v with
  | Some s => if String.eqb s EmptyString then None else Some s
  | None => None
  end.

(** [generateSpeechFromText] *)
Definition generateSpeechFromText (reply : outcome GenerateContentResponse)
  : outcome (option string) :=
  match reply with
  | Ret response =>
      let base64Audio := inline_audio response in
      Ret (or_null base64Audio)
  | Throw _ => Throw (JsError "Error" "Failed to convert summary to audio.")
  end.

End GeminiService.

(** ** [App]: component state, playback controller and pipeline *)

Module App.
Import Audio GeminiService.

(** *** Web Audio source nodes *)

(** A source node has not been started, is scheduled on the device
    (sound-producing), or is over (by [stop()] or at the end of its buffer). *)
Inductive Phase : Type := Fresh | Sounding | Over.

(** The only closure the code ever assigns to [onended]:
    [() => { setIsPlaying(false); audioSourceRef.current = null; }]. *)
Inductive EndedHandler : Type := ResetPlayback.

Record SourceNode : Type := mkSourceNode {
  buffer : option AudioBuffer;
  connected : bool;
  onended : option EndedHandler;
  phase : Phase;
  offset : option Z;
  startCalls : nat;
  stopCalls : nat;
  endedQueued : bool
}.

Definition fresh_node : SourceNode :=
  {| buffer := None; connected := false; onended := None; phase := Fresh;
     offset := None; startCalls := 0; stopCalls := 0; endedQueued := false |}.

Definition with_buffer (b : option AudioBuffer) (n : SourceNode) : SourceNode :=
  {| buffer := b; connected := connected n; onended := onended n;
     phase := phase n; offset := offset n; startCalls := startCalls n;
     stopCalls := stopCalls n; endedQueued := endedQueued n |}.

Definition with_connected (c : bool) (n : SourceNode) : SourceNode :=
  {| buffer := buffer n; connected := c; onended := onended n;
     phase := phase n; offset := offset n; startCalls := startCalls n;
     stopCalls := stopCalls n; endedQueued := endedQueued n |}.

Definition with_onended (h : option EndedHandler) (n : SourceNode) : SourceNode :=
  {| buffer := buffer n; connected := connected n; onended := h;
     phase := phase n; offset := offset n; startCalls := startCalls n;
     stopCalls := stopCalls n; endedQueued := endedQueued n |}.

(** The effect of an accepted [start(when)]. *)
Definition started (when : Z) (n : SourceNode) : SourceNode :=
  {| buffer := buffer n; connected := connected n; onended := onended n;
     phase := Sounding; offset := Some when; startCalls := S (startCalls n);
     stopCalls := stopCalls n; endedQueued := endedQueued n |}.

(** The effect of an accepted [stop()]: a sounding node falls silent and its
    [ended] event is queued; on a node that is over nothing more happens. *)
Definition stopped (n : SourceNode) : SourceNode :=
  {| buffer := buffer n; connected := connected n; onended := onended n;
     phase := Over; offset := offset n; startCalls := startCalls n;
     stopCalls := S (stopCalls n);
     endedQueued := match phase n with
                    | Sounding => true
                    | _ => endedQueued n
                    end |}.

(** The device played the buffer to its end. *)
Definition played_out (n : SourceNode) : SourceNode :=
  {| buffer := buffer n; connected := connected n; onended := onended n;
     phase := Over; offset := offset n; startCalls := startCalls n;
     stopCalls := stopCalls n; endedQueued := true |}.

Definition dequeued (n : SourceNode) : SourceNode :=
  {| buffer := buffer n; connected := connected n; onended := onended n;
     phase := phase n; offset := offset n; startCalls := startCalls n;
     stopCalls := stopCalls n; endedQueued := false |}.

Definition is_sounding (n : SourceNode) : bool :=
  match phase n with Sounding => true | _ => false end.

(** *** The world *)

(** Where an in-flight [handleSubmit] is suspended. *)
Inductive Stage : Type :=
| AwaitSummary
| AwaitSpeech
| AwaitBuffer (result : outcome AudioBuffer).

(** Calls that leave the component, in program order. *)
Inductive Call : Type :=
| CallSummarize (url : list N)
| CallSpeech (text : string)
| CallNewContext
| CallDecode (base64Text : string)
| CallDecodeAudioData (raw : list byte) (sampleRate channelCount : Z)
| CallResume
| CallCreateSource (id : nat)
| CallSetBuffer (id : nat)
| CallConnect (id : nat)
| CallSetOnended (id : nat) (h : option EndedHandler)
| CallStart (id : nat) (when : Z)
| CallStop (id : nat).

(** Component state ([useState]), refs ([useRef]), the store of the source
    nodes the refs and closures alias, the suspended [handleSubmit] and the
    trace of outgoing calls.  A string of the page is its list of UTF-16
    code units where the code inspects them ([url]).  A state field holds
    the value React has for the next render; a setter writes it at once,
    while the closures of a render keep the values that render captured.
    The handlers of this module read the state itself: they are the
    closures of a render that is up to date with it.  The closure of any
    render, up to date or not, is [Page.togglePlayback_of]. *)
Record World : Type := mkWorld {
  url : list N;
  summary : string;
  isLoading : bool;
  error : option string;
  audioBuffer : option AudioBuffer;
  isPlaying : bool;
  audioContextRef : option AudioContext;
  audioSourceRef : option nat;
  sources : list SourceNode;
  pending : option Stage;
  calls : list Call
}.

Definition initial : World :=
  {| url := []; summary := EmptyString; isLoading := false; error := None;
     audioBuffer := None; isPlaying := false; audioContextRef := None;
     audioSourceRef := None; sources := []; pending := None; calls := [] |}.

Definition set_url (v : list N) (w : World) : World :=
  {| url := v; summary := summary w; isLoading := isLoading w;
     error := error w; audioBuffer := audioBuffer w; isPlaying := isPlaying w;
     audioContextRef := audioContextRef w; audioSourceRef := audioSourceRef w;
     sources := sources w; pending := pending w; calls := calls w |}.

Definition set_summary (v : string) (w : World) : World :=
  {| url := url w; summary := v; isLoading := isLoading w;
     error := error w; audioBuffer := audioBuffer w; isPlaying := isPlaying w;
     audioContextRef := audioContextRef w; audioSourceRef := audioSourceRef w;
     sources := sources w; pending := pending w; calls := calls w |}.

Definition set_isLoading (v : bool) (w : World) : World :=
  {| url := url w; summary := summary w; isLoading := v;
     error := error w; audioBuffer := audioBuffer w; isPlaying := isPlaying w;
     audioContextRef := audioContextRef w; audioSourceRef := audioSourceRef w;
     sources := sources w; pending := pending w; calls := calls w |}.

Definition set_error (v : option string) (w : World) : World :=
  {| url := url w; summary := summary w; isLoading := isLoading w;
     error := v; audioBuffer := audioBuffer w; isPlaying := isPlaying w;
     audioContextRef := audioContextRef w; audioSourceRef := audioSourceRef w;
     sources := sources w; pending := pending w; calls := calls w |}.

Definition set_audioBuffer (v : option AudioBuffer) (w : World) : World :=
  {| url := url w; summary := summary w; isLoading := isLoading w;
     error := error w; audioBuffer := v; isPlaying := isPlaying w;
     audioContextRef := audioContextRef w; audioSourceRef := audioSourceRef w;
     sources := sources w; pending := pending w; calls := calls w |}.

Definition set_isPlaying (v : bool) (w : World) : World :=
  {| url := url w; summary := summary w; isLoading := isLoading w;
     error := error w; audioBuffer := audioBuffer w; isPlaying := v;
     audioContextRef := audioContextRef w; audioSourceRef := audioSourceRef w;
     sources := sources w; pending := pending w; calls := calls w |}.

Definition set_audioContextRef (v : option AudioContext) (w : World) : World :=
  {| url := url w; summary := summary w; isLoading := isLoading w;
     error := error w; audioBuffer := audioBuffer w; isPlaying := isPlaying w;
     audioContextRef := v; audioSourceRef := audioSourceRef w;
     sources := sources w; pending := pending w; calls := calls w |}.

Definition set_audioSourceRef (v : option nat) (w : World) : World :=
  {| url := url w; summary := summary w; isLoading := isLoading w;
     error := error w; audioBuffer := audioBuffer w; isPlaying := isPlaying w;
     audioContextRef := audioContextRef w; audioSourceRef := v;
     sources := sources w; pending := pending w; calls := calls w |}.

Definition set_sources (v : list SourceNode) (w : World) : World :=
  {| url := url w; summary := summary w; isLoading := isLoading w;
     error := error w; audioBuffer := audioBuffer w; isPlaying := isPlaying w;
     audioContextRef := audioContextRef w; audioSourceRef := audioSourceRef w;
     sources := v; pending := pending w; calls := calls w |}.

Definition set_pending (v : option Stage) (w : World) : World :=
  {| url := url w; summary := summary w; isLoading := isLoading w;
     error := error w; audioBuffer := audioBuffer w; isPlaying := isPlaying w;
     audioContextRef := audioContextRef w; audioSourceRef := audioSourceRef w;
     sources := sources w; pending := v; calls := calls w |}.

Definition set_calls (v : list Call) (w : World) : World :=
  {| url := url w; summary := summary w; isLoading := isLoading w;
     error := error w; audioBuffer := audioBuffer w; isPlaying := isPlaying w;
     audioContextRef := audioContextRef w; audioSourceRef := audioSourceRef w;
     sources := sources w; pending := pending w; calls := v |}.

(** *** Handlers as actions on the world *)

(** A handler runs on the world and returns or throws; what it wrote
    before a throw stays written. *)
Definition M (A : Type) : Type := World -> outcome A * World.

Definition ret {A : Type} (a : A) : M A := fun w => (Ret a, w).

Definition bind {A B : Type} (m : M A) (k : A -> M B) : M B :=
  fun w =>
    match m w with
    | (Ret a, w') => k a w'
    | (Throw e, w') => (Throw e, w')
    end.

Declare Scope action_scope.
Delimit Scope action_scope with action.
Bind Scope action_scope with M.
Notation "x <- m ;; k" := (bind m (fun x => k))
  (at level 100, m at next level, k at level 200, right associativity)
  : action_scope.
Notation "m ;; k" := (bind m (fun _ => k))
  (at level 100, k at level 200, right associativity) : action_scope.
Local Open Scope action_scope.

Definition throw {A : Type} (e : Exn) : M A := fun w => (Throw e, w).

Definition lift {A : Type} (o : outcome A) : M A := fun w => (o, w).

Definition get : M World := fun w => (Ret w, w).

Definition modify (f : World -> World) : M unit := fun w => (Ret tt, f w).

(** [try { body } catch (e) { handler }] *)
Definition try_catch {A : Type} (body : M A) (handler : Exn -> M A) : M A :=
  fun w =>
    match body w with
    | (Ret a, w') => (Ret a, w')
    | (Throw e, w') => handler e w'
    end.

Definition call (c : Call) : M unit :=
  modify (fun w => set_calls (calls w ++ [c]) w).

Definition setSummary (v : string) : M unit := modify (set_summary v).
Definition setIsLoading (v : bool) : M unit := modify (set_isLoading v).
Definition setError (v : option string) : M unit := modify (set_error v).
Definition setAudioBuffer (v : option AudioBuffer) : M unit :=
  modify (set_audioBuffer v).
Definition setIsPlaying (v : bool) : M unit := modify (set_isPlaying v).

(** *** Web Audio operations *)

Definition InvalidStateError : Exn :=
  JsError "InvalidStateError" "The source node is in the wrong state.".

Definition TypeError : Exn :=
  JsError "TypeError" "Cannot read properties of null.".

Definition update_node (id : nat) (f : SourceNode -> SourceNode) : M unit :=
  modify (fun w => set_sources (alter f id (sources w)) w).

(** [ctx.resume()]: the request is recorded; the state changes when the
    returned promise settles, which is an event of its own. *)
Definition resume : M unit :=
  w <- get;;
  match audioContextRef w with
  | Some ctx =>
      call CallResume;;
      modify (set_audioContextRef
                (Some {| state := state ctx; resumePending := true |}))
  | None => throw TypeError
  end.

(** [ctx.createBufferSource()]: a new node, never a reused one. *)
Definition createBufferSource : M nat :=
  w <- get;;
  let id := length (sources w) in
  modify (set_sources (sources w ++ [fresh_node]));;
  call (CallCreateSource id);;
  ret id.

(** [source.start(when)] throws when [start] was called before. *)
Definition start (id : nat) (when : Z) : M unit :=
  w <- get;;
  match sources w !! id with
  | Some n =>
      call (CallStart id when);;
      match startCalls n with
      | O => update_node id (started when)
      | S _ => throw InvalidStateError
      end
  | None => throw TypeError
  end.

(** [source.stop()] throws when [start] was never called. *)
Definition stop (id : nat) : M unit :=
  w <- get;;
  match sources w !! id with
  | Some n =>
      call (CallStop id);;
      match startCalls n with
      | O => throw InvalidStateError
      | S _ => update_node id stopped
      end
  | None => throw TypeError
  end.

(** *** [stopPlayback] and [togglePlayback] *)

Definition stopPlayback : M unit :=
  w <- get;;
  match audioSourceRef w with
  | Some current =>
      call (CallSetOnended current None);;
      update_node current (with_onended None);;
      stop current;;
      modify (set_audioSourceRef None)
  | None => ret tt
  end;;
  setIsPlaying false.

Definition togglePlayback : M unit :=
  w <- get;;
  if isPlaying w then stopPlayback
  else
    match audioBuffer w, audioContextRef w with
    | Some b, Some ctx =>
        match state ctx with
        | Suspended => resume
        | Running => ret tt
        end;;
        source <- createBufferSource;;
        call (CallSetBuffer source);;
        update_node source (with_buffer (Some b));;
        call (CallConnect source);;
        update_node source (with_connected true);;
        call (CallSetOnended source (Some ResetPlayback));;
        update_node source (with_onended (Some ResetPlayback));;
        start source 0;;
        modify (set_audioSourceRef (Some source));;
        setIsPlaying true
    | _, _ => ret tt
    end.

(** The body of the [onended] closure.  [setIsPlaying(false)] is a state
    update: it is the value of the next render, and the closures of the
    current render keep the flag they captured; the ref is written at
    once. *)
Definition run_handler (h : EndedHandler) : M unit :=
  match h with
  | ResetPlayback =>
      setIsPlaying false;;
      modify (set_audioSourceRef None)
  end.

(** *** [handleSubmit] *)

(** ECMAScript [WhiteSpace] and [LineTerminator] code units, which [trim]
    removes. *)
Definition js_whitespace (c : N) : bool :=
  existsb (N.eqb c)
    [9; 10; 11; 12; 13; 32; 160; 5760; 8192; 8193; 8194; 8195; 8196; 8197;
     8198; 8199; 8200; 8201; 8202; 8232; 8233; 8239; 8287; 12288; 65279]%N.

(** [!url.trim()] *)
Definition is_blank (u : list N) : bool := forallb js_whitespace u.

(** [!audioB64] on a string or [null]. *)
Definition falsy (v : option string) : bool :=
  match v with
  | Some s => String.eqb s EmptyString
  | None => true
  end.

(** The code between two [await]s of the [try] block returns the stage it
    suspends at, or [None] when the block is done. *)
Definition begin_summary : M (option Stage) :=
  w <- get;;
  call (CallSummarize (url w));;
  ret (Some AwaitSummary).

Definition after_summary (reply : outcome GenerateContentResponse)
  : M (option Stage) :=
  summaryText <- lift (summarizeArticleFromUrl reply);;
  setSummary summaryText;;
  call (CallSpeech summaryText);;
  ret (Some AwaitSpeech).

(** [new AudioContext({ sampleRate: 24000 })] returns a context in the state
    the platform chose, or throws. *)
Definition ensure_context (created : outcome ContextState) : M AudioContext :=
  w <- get;;
  match audioContextRef w with
  | Some ctx => ret ctx
  | None =>
      call CallNewContext;;
      st <- lift created;;
      let ctx := {| state := st; resumePending := false |} in
      modify (set_audioContextRef (Some ctx));;
      ret ctx
  end.

Definition after_speech (reply : outcome GenerateContentResponse)
    (created : outcome ContextState) : M (option Stage) :=
  audioB64 <- lift (generateSpeechFromText reply);;
  if falsy audioB64 then throw (JsError "Error" "Failed to generate audio.")
  else
    let b64 := default EmptyString audioB64 in
    ctx <- ensure_context created;;
    call (CallDecode b64);;
    decodedBytes <- lift (decode b64);;
    call (CallDecodeAudioData decodedBytes 24000 1);;
    ret (Some (AwaitBuffer (decodeAudioData decodedBytes ctx 24000 1))).

Definition after_buffer (result : outcome AudioBuffer) : M (option Stage) :=
  buffer <- lift result;;
  setAudioBuffer (Some buffer);;
  ret None.

(** [catch (err) { setError(...) } finally { setIsLoading(false) }] around a
    piece of the [try] block: the [finally] runs once the block is left. *)
Definition settle (piece : M (option Stage)) : M unit :=
  next <- try_catch piece
            (fun err => setError (Some (error_text err));; ret None);;
  match next with
  | Some stage => modify (set_pending (Some stage))
  | None =>
      setIsLoading false;;
      modify (set_pending None)
  end.

(** [handleSubmit] up to its first [await]. *)
Definition handleSubmit : M unit :=
  w <- get;;
  if is_blank (url w) then setError (Some "Please enter a valid URL.")
  else
    setIsLoading true;;
    setError None;;
    setSummary EmptyString;;
    setAudioBuffer None;;
    stopPlayback;;
    settle begin_summary.

(** *** The event loop *)

Inductive Event : Type :=
| ChangeUrl (u : list N)
| Submit
| SummaryReply (reply : outcome GenerateContentResponse)
| SpeechReply (reply : outcome GenerateContentResponse)
              (created : outcome ContextState)
| BufferSettled
| Click
| PlayedOut (id : nat)
| EndedEvent (id : nat)
| ResumeSettled.

(** The form controls are [disabled={isLoading}]; a continuation runs when
    its promise settles; the device events need a sounding node, a queued
    [ended] event, a requested resume.  The play button may be clicked in
    any state. *)
Definition enabled (e : Event) (w : World) : bool :=
  match e with
  | ChangeUrl _ | Submit => negb (isLoading w)
  | SummaryReply _ =>
      match pending w with Some AwaitSummary => true | _ => false end
  | SpeechReply _ _ =>
      match pending w with Some AwaitSpeech => true | _ => false end
  | BufferSettled =>
      match pending w with Some (AwaitBuffer _) => true | _ => false end
  | Click => true
  | PlayedOut id =>
      match sources w !! id with Some n => is_sounding n | None => false end
  | EndedEvent id =>
      match sources w !! id with Some n => endedQueued n | None => false end
  | ResumeSettled =>
      match audioContextRef w with
      | Some ctx => resumePending ctx
      | None => false
      end
  end.

Definition fire (e : Event) : M unit :=
  match e with
  | ChangeUrl u => modify (set_url u)
  | Submit => handleSubmit
  | SummaryReply reply => settle (after_summary reply)
  | SpeechReply reply created => settle (after_speech reply created)
  | BufferSettled =>
      w <- get;;
      match pending w with
      | Some (AwaitBuffer result) => settle (after_buffer result)
      | _ => ret tt
      end
  | Click => togglePlayback
  | PlayedOut id => update_node id played_out
  | EndedEvent id =>
      w <- get;;
      update_node id dequeued;;
      match sources w !! id ≫= onended with
      | Some h => run_handler h
      | None => ret tt
      end
  | ResumeSettled =>
      modify (fun w => set_audioContextRef
                (Some {| state := Running; resumePending := false |}) w)
  end.

Definition step (e : Event) (w : World) : option World :=
  if enabled e w then Some (snd (fire e w)) else None.

Fixpoint run (es : list Event) (w : World) : option World :=
  match es with
  | [] => Some w
  | e :: es' =>
      match step e w with
      | Some w' => run es' w'
      | None => None
      end
  end.

Inductive reachable : World -> Prop :=
| reachable_initial : reachable initial
| reachable_step w e w' : reachable w -> step e w = Some w' -> reachable w'.

(** The ids of the sound-producing instances. *)
Definition sounding_at (w : World) (id : nat) : bool :=
  match sources w !! id with
  | Some n => is_sounding n
  | None => false
  end.

Definition active (w : World) : list nat :=
  List.filter (sounding_at w) (seq 0 (length (sources w))).

(** A handler fails when it throws. *)
Definition fails {A : Type} (m : M A) (w : World) : Prop :=
  exists e, fst (m w) = Throw e.

(** The node a successful start leaves in the store. *)
Definition playing_node (b : AudioBuffer) : SourceNode :=
  started 0 (with_onended (Some ResetPlayback)
               (with_connected true (with_buffer (Some b) fresh_node))).

(** The context after the resume request of a start, and the calls a start
    makes on the node [id]. *)
Definition resumed (ctx : AudioContext) : AudioContext :=
  match state ctx with
  | Suspended => {| state := Suspended; resumePending := true |}
  | Running => ctx
  end.

Definition start_calls (ctx : AudioContext) (id : nat) : list Call :=
  match state ctx with Suspended => [CallResume] | Running => [] end ++
  [CallCreateSource id; CallSetBuffer id; CallConnect id;
   CallSetOnended id (Some ResetPlayback); CallStart id 0].

(** The component after a failed run: Idle, no session, nothing sounding,
    no buffer, not loading, nothing suspended, the message shown, and the
    form enabled again. *)
Definition recovered (w : World) (msg : string) : Prop :=
  isPlaying w = false /\ audioSourceRef w = None /\ active w = [] /\
  audioBuffer w = None /\ isLoading w = false /\ pending w = None /\
  error w = Some msg /\ enabled Submit w = true.

(** *** A sample run *)

(** A reply with a summary text and one inline audio payload. *)
Definition reply_with (t : string) (payload : option string)
  : GenerateContentResponse :=
  {| text := t;
     candidates :=
       Some [ {| content :=
                   Some {| parts :=
                             Some [ {| inlineData :=
                                         Some {| data := payload |} |} ] |} |} ] |}.

(** A URL is typed and submitted, the summary arrives, then the speech
    (the base64 text of the bytes 00 80 ff 7f) on a context the platform
    creates suspended, and the conversion settles. *)
Definition loaded_trace : list Event :=
  [ChangeUrl [104; 116; 116; 112]%N; Submit;
   SummaryReply (Ret (reply_with "news" None));
   SpeechReply (Ret (reply_with EmptyString (Some "AID/fw=="))) (Ret Suspended);
   BufferSettled].

(** A run suspended at the speech synthesis. *)
Definition summarised_trace : list Event :=
  [ChangeUrl [104; 116; 116; 112]%N; Submit;
   SummaryReply (Ret (reply_with "news" None))].

(** *** Consistency of the world *)

(** What holds of the node [id] of the store, given the session ref. *)
Record node_ok (ref : option nat) (id : nat) (n : SourceNode) : Prop := {
  ok_started : startCalls n = 1%nat;
  ok_stops : (stopCalls n <= 1)%nat;
  ok_queued : endedQueued n = true -> phase n = Over;
  ok_owner :
    phase n = Sounding \/ (endedQueued n = true /\ onended n <> None) ->
    ref = Some id;
  ok_stopped : stopCalls n = 1%nat -> onended n = None /\ phase n = Over
}.

(** The flag, the session ref and the store agree. *)
Record playback_ok (playing : bool) (ref : option nat)
    (store : list SourceNode) : Prop := {
  inv_flag : playing = true <-> ref <> None;
  inv_nodes : forall id n, store !! id = Some n -> node_ok ref id n;
  inv_ref :
    forall id, ref = Some id ->
      exists n, store !! id = Some n /\
                onended n = Some ResetPlayback /\ stopCalls n = 0%nat
}.

(** While a run of [handleSubmit] is suspended the component is loading,
    holds no buffer and plays nothing; a buffer implies a context. *)
Record pipeline_ok (loading : bool) (stage : option Stage)
    (buf : option AudioBuffer) (playing : bool)
    (ctx : option AudioContext) : Prop := {
  inv_loading : loading = true <-> stage <> None;
  inv_pending : stage <> None -> buf = None /\ playing = false;
  inv_buffer : buf <> None -> ctx <> None;
  inv_convert : forall r, stage = Some (AwaitBuffer r) -> ctx <> None
}.

Definition consistent (w : World) : Prop :=
  playback_ok (isPlaying w) (audioSourceRef w) (sources w) /\
  pipeline_ok (isLoading w) (pending w) (audioBuffer w) (isPlaying w)
              (audioContextRef w).

End App.

(** ** [App]: what the component renders, and the built-ins it calls *)

Module Page.
Import Audio GeminiService App.

(** [String.prototype.trim] on a list of code units: the white space and
    line terminators at both ends are removed. *)
Fixpoint trimStart (u : list N) : list N :=
  match u with
  | [] => []
  | c :: rest => if js_whitespace c then trimStart rest else u
  end.

Definition trimEnd (u : list N) : list N := rev (trimStart (rev u)).

Definition trim (u : list N) : list N := trimEnd (trimStart u).


(** The icon of the play button: [isPlaying ? <PauseIcon/> : <PlayIcon/>]. *)
Inductive Icon : Type := PauseIcon | PlayIcon.

(** What the JSX of [App] shows: the input and the submit button are
    [disabled={isLoading}] and the button shows the spinner while loading;
    [{error && ...}] and [{summary && ...}] render nothing for [null] and
    for the empty string; the play button sits inside the summary panel
    under [{audioBuffer && ...}]. *)
Record View : Type := mkView {
  formDisabled : bool;
  spinner : bool;
  errorBanner : option string;
  summaryPanel : option string;
  toggleButton : option Icon
}.

Definition nonempty (s : string) : bool := negb (String.eqb s EmptyString).

Definition render (w : World) : View :=
  {| formDisabled := isLoading w;
     spinner := isLoading w;
     errorBanner :=
       match error w with
       | Some msg => if nonempty msg then Some msg else None
       | None => None
       end;
     summaryPanel := if nonempty (summary w) then Some (summary w) else None;
     toggleButton :=
       if nonempty (summary w) then
         match audioBuffer w with
         | Some _ => Some (if isPlaying w then PauseIcon else PlayIcon)
         | None => None
         end
       else None |}.

(** How many [await]s a suspended [handleSubmit] still has before it. *)
Definition awaits_left (stage : option Stage) : nat :=
  match stage with
  | Some AwaitSummary => 3
  | Some AwaitSpeech => 2
  | Some (AwaitBuffer _) => 1
  | None => 0
  end.

(** The number of [new AudioContext(...)] calls made so far. *)
Definition is_new_context (c : Call) : bool :=
  match c with CallNewContext => true | _ => false end.

Definition contexts_created (w : World) : nat :=
  length (List.filter is_new_context (calls w)).

(** How a node of the store may have changed between two worlds: its
    buffer is the same, it was not started again, and it is in the same
    phase or over. *)
Definition aged (n n' : SourceNode) : Prop :=
  buffer n' = buffer n /\ startCalls n' = startCalls n /\
  (stopCalls n <= stopCalls n')%nat /\
  (phase n' = phase n \/ phase n' = Over) /\
  (phase n = Over -> phase n' = Over).

(** The events that continue a suspended [handleSubmit]. *)
Definition is_continuation (e : Event) : bool :=
  match e with
  | SummaryReply _ | SpeechReply _ _ | BufferSettled => true
  | _ => false
  end.

End Page.

(** * Proofs *)

Section Base64Facts.
Import Audio.
Local Open Scope Z_scope.

Lemma byte_val_range (b : byte) : 0 <= byte_val b < 256.
Proof.
  unfold byte_val. pose proof (Byte.to_N_bounded b) as Hb.
  lia.
Qed.

Lemma byte_of_Z_val (b : byte) : byte_of_Z (byte_val b) = b.
Proof.
  unfold byte_of_Z. rewrite Z.mod_small by apply byte_val_range.
  unfold byte_val. rewrite N2Z.id, Byte.of_to_N. reflexivity.
Qed.

Lemma byte_of_Z_mod (v : Z) (b : byte) :
  v mod 256 = byte_val b -> byte_of_Z v = b.
Proof.
  intros Hv. rewrite <- (byte_of_Z_val b). unfold byte_of_Z.
  rewrite Hv. rewrite (Z.mod_small (byte_val b)) by apply byte_val_range.
  reflexivity.
Qed.

Lemma below_64_cases (P : Z -> Prop) :
  (forall n : nat, (n < 64)%nat -> P (Z.of_nat n)) ->
  forall s, 0 <= s < 64 -> P s.
Proof.
  intros HP s Hs. rewrite <- (Z2Nat.id s) by lia. apply HP. lia.
Qed.

Lemma char_sextet_char (s : Z) :
  0 <= s < 64 -> char_sextet (sextet_char s) = Some s.
Proof.
  revert s. apply below_64_cases. intros n Hn.
  do 64 (destruct n as [|n]; [reflexivity|]). lia.
Qed.

Lemma sextet_char_not_pad (s : Z) :
  0 <= s < 64 -> is_pad (sextet_char s) = false.
Proof.
  revert s. apply below_64_cases. intros n Hn.
  do 64 (destruct n as [|n]; [reflexivity|]). lia.
Qed.

Lemma sextet_range (n i : Z) : 0 <= sextet n i < 64.
Proof. unfold sextet. apply Z.mod_pos_bound. lia. Qed.

Lemma ungroup_sextets (b0 b1 b2 : Z) :
  0 <= b0 < 256 -> 0 <= b1 < 256 -> 0 <= b2 < 256 ->
  let n := group24 b0 b1 b2 in
  ungroup (sextet n 0) (sextet n 1) (sextet n 2) (sextet n 3) = n.
Proof.
  intros H0 H1 H2 n. subst n. unfold ungroup, sextet, group24.
  change (64 ^ (3 - 0)) with 262144. change (64 ^ (3 - 1)) with 4096.
  change (64 ^ (3 - 2)) with 64. change (64 ^ (3 - 3)) with 1.
  Z.div_mod_to_equations. lia.
Qed.

Lemma group_bytes (b0 b1 b2 : Z) :
  0 <= b0 < 256 -> 0 <= b1 < 256 -> 0 <= b2 < 256 ->
  let n := group24 b0 b1 b2 in
  (n / 65536) mod 256 = b0 /\ (n / 256) mod 256 = b1 /\ n mod 256 = b2.
Proof.
  intros H0 H1 H2 n. subst n. unfold group24.
  repeat split; Z.div_mod_to_equations; lia.
Qed.

Lemma ungroup_sextets_2 (b0 b1 : Z) :
  0 <= b0 < 256 -> 0 <= b1 < 256 ->
  let n := group24 b0 b1 0 in
  ungroup (sextet n 0) (sextet n 1) (sextet n 2) 0 = n.
Proof.
  intros H0 H1 n. subst n. unfold ungroup, sextet, group24.
  change (64 ^ (3 - 0)) with 262144. change (64 ^ (3 - 1)) with 4096.
  change (64 ^ (3 - 2)) with 64.
  Z.div_mod_to_equations. lia.
Qed.

Lemma ungroup_sextets_1 (b0 : Z) :
  0 <= b0 < 256 ->
  let n := group24 b0 0 0 in
  ungroup (sextet n 0) (sextet n 1) 0 0 = n.
Proof.
  intros H0 n. subst n. unfold ungroup, sextet, group24.
  change (64 ^ (3 - 0)) with 262144. change (64 ^ (3 - 1)) with 4096.
  Z.div_mod_to_equations. lia.
Qed.

Lemma decode_group_3 (b0 b1 b2 : byte) :
  let n := group24 (byte_val b0) (byte_val b1) (byte_val b2) in
  decode_group (sextet_char (sextet n 0)) (sextet_char (sextet n 1))
               (sextet_char (sextet n 2)) (sextet_char (sextet n 3)) 3
  = Some [b0; b1; b2].
Proof.
  intros n. unfold decode_group.
  rewrite !char_sextet_char by apply sextet_range. cbn [mbind option_bind Nat.leb].
  pose proof (byte_val_range b0) as H0. pose proof (byte_val_range b1) as H1.
  pose proof (byte_val_range b2) as H2.
  subst n. rewrite ungroup_sextets by assumption.
  destruct (group_bytes _ _ _ H0 H1 H2) as (E0 & E1 & E2).
  cbn [take]. f_equal.
  rewrite (byte_of_Z_mod _ b0 E0), (byte_of_Z_mod _ b1 E1), (byte_of_Z_mod _ b2 E2).
  reflexivity.
Qed.

Lemma decode_group_2 (b0 b1 : byte) (c3 : ascii) :
  let n := group24 (byte_val b0) (byte_val b1) 0 in
  decode_group (sextet_char (sextet n 0)) (sextet_char (sextet n 1))
               (sextet_char (sextet n 2)) c3 2
  = Some [b0; b1].
Proof.
  intros n. unfold decode_group.
  rewrite !char_sextet_char by apply sextet_range. cbn [mbind option_bind Nat.leb].
  pose proof (byte_val_range b0) as H0. pose proof (byte_val_range b1) as H1.
  assert (H2 : 0 <= 0 < 256) by lia.
  subst n. rewrite ungroup_sextets_2 by assumption.
  destruct (group_bytes _ _ _ H0 H1 H2) as (E0 & E1 & _).
  cbn [take]. f_equal.
  rewrite (byte_of_Z_mod _ b0 E0), (byte_of_Z_mod _ b1 E1).
  reflexivity.
Qed.

Lemma decode_group_1 (b0 : byte) (c2 c3 : ascii) :
  let n := group24 (byte_val b0) 0 0 in
  decode_group (sextet_char (sextet n 0)) (sextet_char (sextet n 1)) c2 c3 1
  = Some [b0].
Proof.
  intros n. unfold decode_group.
  rewrite !char_sextet_char by apply sextet_range. cbn [mbind option_bind Nat.leb].
  pose proof (byte_val_range b0) as H0.
  assert (H2 : 0 <= 0 < 256) by lia.
  subst n. rewrite ungroup_sextets_1 by assumption.
  destruct (group_bytes _ _ _ H0 H2 H2) as (E0 & _ & _).
  cbn [take]. f_equal.
  rewrite (byte_of_Z_mod _ b0 E0).
  reflexivity.
Qed.

Lemma list_ind3 {A : Type} (P : list A -> Prop) :
  P [] -> (forall a, P [a]) -> (forall a b, P [a; b]) ->
  (forall a b c l, P l -> P (a :: b :: c :: l)) ->
  forall l, P l.
Proof.
  intros H0 H1 H2 H3 l.
  assert (Hall : forall n l, (length l <= n)%nat -> P l).
  { clear l. induction n as [|n IH]; intros l Hl.
    - destruct l; [exact H0 | simpl in Hl; lia].
    - destruct l as [|a [|b [|c l]]]; auto.
      apply H3, IH. simpl in Hl. lia. }
  apply (Hall (length l)). lia.
Qed.

Lemma decode_groups_encode (B : list byte) :
  decode_groups (base64Encode B) = Some B.
Proof.
  induction B as [| b0 | b0 b1 | b0 b1 b2 rest IH] using list_ind3.
  - reflexivity.
  - cbn [base64Encode decode_groups].
    change (is_pad pad) with true. cbn iota.
    apply decode_group_1.
  - cbn [base64Encode decode_groups].
    change (is_pad pad) with true. cbn iota.
    rewrite sextet_char_not_pad by apply sextet_range.
    apply decode_group_2.
  - cbn [base64Encode decode_groups].
    rewrite sextet_char_not_pad by apply sextet_range.
    rewrite decode_group_3, IH. reflexivity.
Qed.
(** C9: for every raw byte buffer [B] of even length, decoding the standard
    base64 encoding of [B] returns [B] itself, byte for byte; the decoder is
    a function of its argument alone. *)
Theorem decode_base64Encode_roundtrip (B : list byte) :
  Nat.Even (length B) -> decode (base64Encode B) = Ret B.
Proof.
  intros _. unfold decode. rewrite decode_groups_encode. reflexivity.
Qed.

(** The round trip at the PCM bytes of the samples -32768 and 32767. *)
Lemma decode_base64Encode_roundtrip_witness :
  Nat.Even (length [x00; x80; xff; x7f]) /\
  decode (base64Encode [x00; x80; xff; x7f]) = Ret [x00; x80; xff; x7f].
Proof.
  assert (He : Nat.Even (length [x00; x80; xff; x7f])).
  { exists 2%nat. reflexivity. }
  split; [exact He|].
  apply (decode_base64Encode_roundtrip [x00; x80; xff; x7f] He).
Defined.

End Base64Facts.

Section ConversionFacts.
Import Audio.

Lemma int16_le_range (lo hi : byte) :
  (-32768 <= int16_le lo hi < 32768)%Z.
Proof.
  unfold int16_le.
  pose proof (byte_val_range lo). pose proof (byte_val_range hi).
  destruct (Z.leb_spec 32768 (byte_val lo + 256 * byte_val hi)); lia.
Qed.

Lemma to_float_range (v : Z) :
  (-32768 <= v < 32768)%Z -> (- (1) <= to_float v)%Q /\ (to_float v < 1)%Q.
Proof.
  intros Hv. unfold to_float, Qle, Qlt. simpl. lia.
Qed.

Lemma pcm16_nth (raw : list byte) (j : nat) (lo hi : byte) :
  raw !! (2 * j)%nat = Some lo -> raw !! (2 * j + 1)%nat = Some hi ->
  nth j (pcm16 raw) 0%Z = int16_le lo hi.
Proof.
  revert raw. induction j as [|j IH]; intros raw Hlo Hhi.
  - destruct raw as [|a [|b raw]]; simpl in *; congruence.
  - destruct raw as [|a [|b raw]]; try discriminate.
    replace (2 * S j)%nat with (S (S (2 * j))) in * by lia.
    simpl in Hlo, Hhi. simpl. apply IH; assumption.
Qed.

Lemma frames_fit (len C i c : nat) :
  (i < frameCount len C)%nat -> (c < C)%nat ->
  (2 * (i * C + c) + 1 < len)%nat.
Proof.
  unfold frameCount. intros Hi Hc.
  pose proof (Nat.Div0.mul_div_le len (2 * C)) as Hle.
  nia.
Qed.

Lemma frameCount_Z (len : nat) (C : Z) :
  (1 <= C)%Z ->
  Z.of_nat (frameCount len (Z.to_nat C)) = (Z.of_nat len / (2 * C))%Z.
Proof.
  intros HC. unfold frameCount. rewrite Nat2Z.inj_div, Nat2Z.inj_mul, Z2Nat.id by lia.
  reflexivity.
Qed.

(** C2: for a raw buffer of [L] bytes and [channelCount >= 1] (with a
    positive sample rate, as the contract of the converter requires), the
    conversion returns, without error, a buffer of [channelCount] channel
    arrays, each exactly [floor(L / (2 * channelCount))] long; sample [i] of
    channel [c] is the 16-bit little-endian signed integer at byte offset
    [2 * (i * channelCount + c)] divided by 32768, a value in [-1, 1); when
    [L = 2 * channelCount * k + r] with [0 < r < 2 * channelCount] each
    channel has exactly [k] frames. *)
Theorem decodeAudioData_frames
    (raw : list byte) (ctx : AudioContext) (rate channelCount : Z) :
  (0 < rate)%Z -> (1 <= channelCount)%Z ->
  exists buf : AudioBuffer,
    decodeAudioData raw ctx rate channelCount = Ret buf /\
    Z.of_nat (length (channelData buf)) = channelCount /\
    (forall (c : nat) (ch : list Q), channelData buf !! c = Some ch ->
       Z.of_nat (length ch) = (Z.of_nat (length raw) / (2 * channelCount))%Z /\
       (forall (i : nat) (s : Q), ch !! i = Some s ->
          exists lo hi : byte,
            raw !! (2 * (i * Z.to_nat channelCount + c))%nat = Some lo /\
            raw !! (2 * (i * Z.to_nat channelCount + c) + 1)%nat = Some hi /\
            s = (int16_le lo hi # 32768) /\
            (- (1) <= s)%Q /\ (s < 1)%Q) /\
       (forall k r : Z,
          Z.of_nat (length raw) = (2 * channelCount * k + r)%Z ->
          (0 < r < 2 * channelCount)%Z ->
          Z.of_nat (length ch) = k)).
Proof.
  intros Hrate HC. unfold decodeAudioData.
  destruct (Z.leb_spec rate 0) as [?|_]; [lia|].
  destruct (Z.leb_spec channelCount 0) as [?|_]; [lia|].
  cbn [orb]. eexists. split; [reflexivity|]. cbn [channelData].
  set (C := Z.to_nat channelCount).
  split.
  { rewrite length_fmap, length_seq. subst C. lia. }
  intros c ch Hch.
  rewrite list_lookup_fmap in Hch.
  destruct (seq 0 C !! c) as [c'|] eqn:Hc; [|discriminate].
  apply lookup_seq in Hc as [-> Hc]. cbn in Hch.
  injection Hch as <-.
  assert (Hlen : Z.of_nat (length (channel_samples (pcm16 raw) C
                                     (frameCount (length raw) C) c))
                 = (Z.of_nat (length raw) / (2 * channelCount))%Z).
  { unfold channel_samples. rewrite length_fmap, length_seq.
    subst C. apply frameCount_Z. assumption. }
  split; [exact Hlen|]. split.
  - intros i s Hs. unfold channel_samples in Hs.
    rewrite list_lookup_fmap in Hs.
    destruct (seq 0 (frameCount (length raw) C) !! i) as [i'|] eqn:Hi;
      [|discriminate].
    apply lookup_seq in Hi as [-> Hi]. cbn in Hs. injection Hs as <-.
    pose proof (frames_fit _ _ _ _ Hi Hc) as Hfit.
    destruct (lookup_lt_is_Some_2 raw (2 * (i * C + c))) as [lo Hlo]; [lia|].
    destruct (lookup_lt_is_Some_2 raw (2 * (i * C + c) + 1)) as [hi Hhi]; [lia|].
    exists lo, hi. split; [exact Hlo|]. split; [exact Hhi|].
    rewrite (pcm16_nth raw _ lo hi Hlo Hhi).
    split; [reflexivity|].
    apply to_float_range, int16_le_range.
  - intros k r HL Hr. rewrite Hlen, HL.
    symmetry. apply (Z.div_unique_pos _ _ k r); lia.
Qed.

(** The theorem at the four bytes of two samples, one channel, 24 kHz. *)
Lemma decodeAudioData_frames_witness :
  exists buf : AudioBuffer,
    decodeAudioData [x00; x80; xff; x7f; x01]
      {| state := Running; resumePending := false |} 24000 1 = Ret buf /\
    Z.of_nat (length (channelData buf)) = 1%Z /\
    channelData buf !! 0%nat = Some [(-32768 # 32768); (32767 # 32768)].
Proof.
  destruct (decodeAudioData_frames [x00; x80; xff; x7f; x01]
              {| state := Running; resumePending := false |} 24000 1)
    as (buf & Hbuf & Hn & _); [lia | lia |].
  exists buf. split; [exact Hbuf|]. split; [exact Hn|].
  vm_compute in Hbuf. injection Hbuf as <-. reflexivity.
Defined.

End ConversionFacts.

Section PlaybackFacts.
Import Audio GeminiService App.
Local Open Scope action_scope.

Lemma alter_snoc {A : Type} (f : A -> A) (l : list A) (x : A) :
  alter f (length l) (l ++ [x]) = l ++ [f x].
Proof.
  rewrite <- (Nat.add_0_r (length l)). rewrite alter_app_r. reflexivity.
Qed.

Lemma lookup_snoc_new {A : Type} (l : list A) (x : A) :
  (l ++ [x]) !! length l = Some x.
Proof. apply list_lookup_middle. reflexivity. Qed.

(** [stopPlayback] with no session: only the flag is written. *)
Lemma stopPlayback_none (w : World) :
  audioSourceRef w = None ->
  stopPlayback w = (Ret tt, set_isPlaying false w).
Proof.
  intros Href. unfold stopPlayback, bind, get. rewrite Href. reflexivity.
Qed.

(** [stopPlayback] with a session on a started node. *)
Lemma stopPlayback_some (w : World) (id : nat) (n : SourceNode) :
  audioSourceRef w = Some id -> sources w !! id = Some n ->
  startCalls n <> 0%nat ->
  stopPlayback w =
    (Ret tt,
     set_isPlaying false
       (set_audioSourceRef None
          (set_sources (alter stopped id (alter (with_onended None) id (sources w)))
             (set_calls (calls w ++ [CallSetOnended id None; CallStop id]) w)))).
Proof.
  intros Href Hn Hs. destruct w as [u sm il er ab ip cx rf ss pd cl].
  cbn in Href, Hn. subst rf.
  unfold stopPlayback, bind, get. cbn.
  unfold stop, bind, get. cbn.
  rewrite list_lookup_alter_eq, Hn. cbn.
  destruct (startCalls n) as [|k] eqn:Hk; [congruence|]. cbn.
  rewrite <- app_assoc. reflexivity.
Qed.

(** [togglePlayback] on its start path. *)
Lemma togglePlayback_start (w : World) (b : AudioBuffer) (ctx : AudioContext) :
  isPlaying w = false -> audioBuffer w = Some b ->
  audioContextRef w = Some ctx ->
  togglePlayback w =
    (Ret tt,
     set_isPlaying true
       (set_audioSourceRef (Some (length (sources w)))
          (set_sources (sources w ++ [playing_node b])
             (set_audioContextRef (Some (resumed ctx))
                (set_calls (calls w ++ start_calls ctx (length (sources w))) w))))).
Proof.
  intros Hp Hb Hc. destruct w as [u sm il er ab ip cx rf ss pd cl].
  cbn in Hp, Hb, Hc. subst ip ab cx.
  unfold togglePlayback, bind, get. cbn.
  unfold resumed, start_calls.
  destruct ctx as [st rp]. destruct st; cbn.
  - unfold start, bind, get. cbn.
    rewrite !alter_snoc, lookup_snoc_new. cbn. rewrite alter_snoc.
    rewrite <- !app_assoc. reflexivity.
  - unfold start, bind, get. cbn.
    rewrite !alter_snoc, lookup_snoc_new. cbn. rewrite alter_snoc.
    rewrite <- !app_assoc. reflexivity.
Qed.

Lemma consistent_initial : consistent initial.
Proof.
  split; split; cbn; try congruence; try (intros; discriminate).
  split; congruence.
  split; congruence.
Qed.

(** [stopPlayback] on a consistent store returns, leaves no session and a
    store in which nothing sounds. *)
Lemma stopPlayback_result (w : World) :
  playback_ok (isPlaying w) (audioSourceRef w) (sources w) ->
  exists ss cl,
    stopPlayback w =
      (Ret tt, set_isPlaying false (set_audioSourceRef None
                 (set_sources ss (set_calls cl w)))) /\
    playback_ok false None ss /\
    length ss = length (sources w) /\
    (forall id n, ss !! id = Some n -> is_sounding n = false).
Proof.
  intros [Hflag Hnodes Href].
  destruct (audioSourceRef w) as [id|] eqn:Hr.
  - destruct (Href id eq_refl) as (n & Hn & Hh & Hs).
    pose proof (Hnodes id n Hn) as Hok.
    exists (alter stopped id (alter (with_onended None) id (sources w))),
           (calls w ++ [CallSetOnended id None; CallStop id]).
    split.
    { apply (stopPlayback_some w id n Hr Hn). rewrite (ok_started _ _ _ Hok). lia. }
    split; [|split].
    + split.
      * split; congruence.
      * intros j m Hm.
        destruct (decide (id = j)) as [<-|Hne].
        -- rewrite list_lookup_alter_eq, list_lookup_alter_eq, Hn in Hm.
           cbn in Hm. injection Hm as <-.
           split; cbn.
           ++ apply (ok_started _ _ _ Hok).
           ++ rewrite Hs. lia.
           ++ reflexivity.
           ++ intros [?|[_ ?]]; congruence.
           ++ intros _. split; reflexivity.
        -- rewrite !list_lookup_alter_ne in Hm by assumption.
           pose proof (Hnodes j m Hm) as Hokm.
           split; try apply Hokm.
           intros Hown. apply (ok_owner _ _ _ Hokm) in Hown. congruence.
      * intros j Hj. discriminate.
    + rewrite !length_alter. reflexivity.
    + intros j m Hm.
      destruct (decide (id = j)) as [<-|Hne].
      * rewrite list_lookup_alter_eq, list_lookup_alter_eq, Hn in Hm.
        cbn in Hm. injection Hm as <-. reflexivity.
      * rewrite !list_lookup_alter_ne in Hm by assumption.
        pose proof (Hnodes j m Hm) as Hokm.
        unfold is_sounding. destruct (phase m) eqn:Hp; try reflexivity.
        assert (Some id = Some j) by (apply (ok_owner _ _ _ Hokm); auto).
        congruence.
  - exists (sources w), (calls w). split.
    { rewrite (stopPlayback_none w Hr). destruct w; cbn in *; subst; reflexivity. }
    split; [|split].
    + split.
      * split; congruence.
      * exact Hnodes.
      * intros j Hj. discriminate.
    + reflexivity.
    + intros j m Hm. pose proof (Hnodes j m Hm) as Hokm.
      unfold is_sounding. destruct (phase m) eqn:Hp; try reflexivity.
      assert (None = Some j) by (apply (ok_owner _ _ _ Hokm); auto).
      congruence.
Qed.

End PlaybackFacts.

Section StepFacts.
Import Audio GeminiService App.
Local Open Scope action_scope.
#[local] Arguments stopPlayback : simpl never.

Ltac pipeline_facts :=
  split; cbn; intros;
  solve [ congruence | split; congruence | intuition congruence ].

(** A start on a consistent idle store. *)
Lemma start_playback_ok (ss : list SourceNode) (b : AudioBuffer) :
  playback_ok false None ss ->
  playback_ok true (Some (length ss)) (ss ++ [playing_node b]).
Proof.
  intros [Hflag Hnodes Href]. split.
  - split; congruence.
  - intros j m Hm. apply lookup_snoc_Some in Hm as [[Hlt Hm]|[-> <-]].
    + pose proof (Hnodes j m Hm) as Hok.
      split; try apply Hok.
      intros Hown. apply (ok_owner _ _ _ Hok) in Hown. discriminate.
    + split; cbn; try reflexivity; try lia; try discriminate.
  - intros j Hj. injection Hj as <-. exists (playing_node b).
    split; [apply lookup_snoc_new|]. split; reflexivity.
Qed.

Lemma consistent_step (w : World) (e : Event) (w' : World) :
  consistent w -> step e w = Some w' -> consistent w'.
Proof.
  intros [Hplay Hpipe] Hstep. unfold step in Hstep.
  destruct (enabled e w) eqn:Hen; [|discriminate].
  injection Hstep as <-.
  destruct e as [u| |reply|reply created| | |id|id| ]; cbn [fire].
  - (* ChangeUrl *)
    destruct w; split; assumption.
  - (* Submit *)
    unfold handleSubmit, bind, get.
    destruct (is_blank (url w)).
    { destruct w; split; assumption. }
    destruct w as [u sm il er ab ip cx rf ss pd cl]. cbn in *.
    match goal with
    | |- context [stopPlayback ?x] =>
        destruct (stopPlayback_result x) as (ss' & cl' & Hstop & Hplay' & Hlen & Hquiet)
    end; [exact Hplay|].
    rewrite Hstop. cbn.
    split; [exact Hplay'|]. cbn.
    destruct Hpipe as [Hl Hp Hb Hc].
    pipeline_facts.
  - (* SummaryReply *)
    destruct w as [u sm il er ab ip cx rf ss pd cl]. cbn in *.
    destruct pd as [[| |r]|]; try discriminate.
    destruct Hpipe as [Hl Hp Hb Hc].
    destruct (Hp ltac:(discriminate)) as [-> ->].
    unfold settle, try_catch, after_summary, bind, lift.
    destruct reply as [response|err]; cbn.
    + split; [exact Hplay|]. pipeline_facts.
    + split; [exact Hplay|]. pipeline_facts.
  - (* SpeechReply *)
    destruct w as [u sm il er ab ip cx rf ss pd cl]. cbn in *.
    destruct pd as [[| |r]|]; try discriminate.
    destruct Hpipe as [Hl Hp Hb Hc].
    destruct (Hp ltac:(discriminate)) as [-> ->].
    assert (Hdone : forall er' cx' cl',
      consistent {| url := u; summary := sm; isLoading := false; error := er';
                    audioBuffer := None; isPlaying := false;
                    audioContextRef := cx'; audioSourceRef := rf;
                    sources := ss; pending := None; calls := cl' |}).
    { intros. split; [exact Hplay|]. pipeline_facts. }
    unfold settle, try_catch, after_speech, bind, lift.
    destruct (generateSpeechFromText reply) as [audioB64|err]; cbn; [|apply Hdone].
    destruct (falsy audioB64); cbn; [apply Hdone|].
    unfold ensure_context, bind, get, lift. cbn.
    destruct cx as [ctx|]; cbn.
    + destruct (decode (default EmptyString audioB64)) as [bytes|err]; cbn;
        [|apply Hdone].
      split; [exact Hplay|]. pipeline_facts.
    + destruct created as [st|err]; cbn; [|apply Hdone].
      destruct (decode (default EmptyString audioB64)) as [bytes|err]; cbn;
        [|apply Hdone].
      split; [exact Hplay|]. pipeline_facts.
  - (* BufferSettled *)
    destruct w as [u sm il er ab ip cx rf ss pd cl]. cbn in *.
    destruct pd as [[| |r]|]; try discriminate.
    destruct Hpipe as [Hl Hp Hb Hc].
    destruct (Hp ltac:(discriminate)) as [-> ->].
    pose proof (Hc r eq_refl) as Hcx.
    unfold bind, get. cbn.
    unfold settle, try_catch, after_buffer, bind, lift.
    destruct r as [buffer|err]; cbn.
    + split; [exact Hplay|]. pipeline_facts.
    + split; [exact Hplay|]. pipeline_facts.
  - (* Click *)
    pose proof (stopPlayback_result w Hplay) as Hsp.
    destruct (isPlaying w) eqn:Hip.
    + unfold togglePlayback, bind, get. rewrite Hip.
      destruct Hsp as (ss' & cl' & Hstop & Hplay' & Hlen & Hquiet).
      rewrite Hstop. destruct w as [u sm il er ab ip cx rf ss pd cl]. cbn in *.
      split; [exact Hplay'|]. cbn.
      destruct Hpipe as [Hl Hp Hb Hc]. split; try assumption.
      intros Hpd. destruct (Hp Hpd). congruence.
    + destruct (audioBuffer w) as [b|] eqn:Hb;
        [destruct (audioContextRef w) as [ctx|] eqn:Hc|].
      * rewrite (togglePlayback_start w b ctx Hip Hb Hc).
        destruct w as [u sm il er ab ip cx rf ss pd cl]. cbn in *. subst.
        destruct Hpipe as [Hl Hp Hb Hc].
        assert (rf = None) as ->.
        { destruct rf; [|reflexivity].
          destruct (inv_flag _ _ _ Hplay) as [_ H]. discriminate H. discriminate. }
        split; cbn.
        -- apply start_playback_ok. exact Hplay.
        -- assert (Hpd : pd = None).
           { destruct pd; [|reflexivity].
             destruct (Hp ltac:(discriminate)). discriminate. }
           subst pd. pipeline_facts.
      * unfold togglePlayback, bind, get. rewrite Hip, Hb, Hc.
        unfold consistent. cbn. rewrite Hip, Hb, Hc. split; assumption.
      * unfold togglePlayback, bind, get. rewrite Hip, Hb.
        unfold consistent. cbn. rewrite Hip, Hb. split; assumption.
  - (* PlayedOut *)
    destruct w as [u sm il er ab ip cx rf ss pd cl]. cbn in *.
    destruct (ss !! id) as [n|] eqn:Hn; [|discriminate].
    destruct Hplay as [Hflag Hnodes Href].
    pose proof (Hnodes id n Hn) as Hok.
    assert (Hph : phase n = Sounding).
    { unfold is_sounding in Hen. destruct (phase n); congruence. }
    split; [|exact Hpipe]. cbn. split.
    + exact Hflag.
    + intros j m Hm. destruct (decide (id = j)) as [<-|Hne].
      * rewrite list_lookup_alter_eq, Hn in Hm. cbn in Hm. injection Hm as <-.
        split; cbn; try apply Hok.
        -- reflexivity.
        -- intros _. apply (ok_owner _ _ _ Hok). left. exact Hph.
        -- intros Hs. destruct (ok_stopped _ _ _ Hok Hs). split; congruence.
      * rewrite list_lookup_alter_ne in Hm by assumption. apply Hnodes, Hm.
    + intros j Hj. destruct (Href j Hj) as (m & Hm & Hh & Hs).
      destruct (decide (id = j)) as [<-|Hne].
      * exists (played_out m). rewrite list_lookup_alter_eq, Hm. cbn. auto.
      * exists m. rewrite list_lookup_alter_ne by assumption. auto.
  - (* EndedEvent *)
    destruct w as [u sm il er ab ip cx rf ss pd cl]. cbn in *.
    destruct (ss !! id) as [n|] eqn:Hn; [|discriminate].
    destruct Hplay as [Hflag Hnodes Href].
    pose proof (Hnodes id n Hn) as Hok.
    pose proof (ok_queued _ _ _ Hok Hen) as Hover.
    unfold bind, get, update_node, modify. cbn. rewrite ?Hn. cbn.
    destruct (onended n) as [[]|] eqn:Hh; cbn.
    + assert (Hrf : rf = Some id).
      { apply (ok_owner _ _ _ Hok). right. split; congruence. }
      split; cbn.
      * split.
        -- split; congruence.
        -- intros j m Hm. destruct (decide (id = j)) as [<-|Hne].
           ++ rewrite list_lookup_alter_eq, Hn in Hm. cbn in Hm.
              injection Hm as <-.
              split; cbn; try apply Hok.
              ** discriminate.
              ** intros [?|[? _]]; congruence.
           ++ rewrite list_lookup_alter_ne in Hm by assumption.
              pose proof (Hnodes j m Hm) as Hokm.
              split; try apply Hokm.
              intros Hown. apply (ok_owner _ _ _ Hokm) in Hown. congruence.
        -- intros j Hj. discriminate.
      * destruct Hpipe as [Hl Hp Hb Hc]. split; try assumption.
        intros Hpd. destruct (Hp Hpd). split; congruence.
    + split; [|exact Hpipe]. cbn. split.
      * exact Hflag.
      * intros j m Hm. destruct (decide (id = j)) as [<-|Hne].
        -- rewrite list_lookup_alter_eq, Hn in Hm. cbn in Hm.
           injection Hm as <-.
           split; cbn; try apply Hok.
           ++ discriminate.
           ++ intros [?|[? _]]; congruence.
        -- rewrite list_lookup_alter_ne in Hm by assumption. apply Hnodes, Hm.
      * intros j Hj. destruct (Href j Hj) as (m & Hm & Hhm & Hs).
        destruct (decide (id = j)) as [<-|Hne].
        -- congruence.
        -- exists m. rewrite list_lookup_alter_ne by assumption. auto.
  - (* ResumeSettled *)
    destruct w as [u sm il er ab ip cx rf ss pd cl]. cbn in *.
    split; [exact Hplay|]. cbn.
    destruct Hpipe as [Hl Hp Hb Hc]. split; try assumption; intros; discriminate.
Qed.

Lemma reachable_consistent (w : World) : reachable w -> consistent w.
Proof.
  induction 1 as [|w e w' _ IH Hstep].
  - exact consistent_initial.
  - exact (consistent_step w e w' IH Hstep).
Qed.

End StepFacts.

Section ControllerTheorems.
Import Audio GeminiService App.
Local Open Scope action_scope.
#[local] Arguments stopPlayback : simpl never.

Lemma run_reachable (es : list Event) (w w' : World) :
  reachable w -> run es w = Some w' -> reachable w'.
Proof.
  revert w. induction es as [|e es IH]; intros w Hw Hrun; cbn in Hrun.
  - injection Hrun as <-. exact Hw.
  - destruct (step e w) as [w1|] eqn:Hstep; [|discriminate].
    apply (IH w1); [|exact Hrun]. exact (reachable_step w e w1 Hw Hstep).
Qed.

Lemma in_active (w : World) (id : nat) :
  In id (active w) <-> sounding_at w id = true.
Proof.
  unfold active. rewrite List.filter_In. split; [tauto|].
  intros Hs. split; [|exact Hs].
  apply List.in_seq. unfold sounding_at in Hs.
  destruct (sources w !! id) as [n|] eqn:Hn; [|discriminate].
  apply lookup_lt_Some in Hn. lia.
Qed.

Lemma sounding_owner (w : World) (id : nat) :
  consistent w -> sounding_at w id = true -> audioSourceRef w = Some id.
Proof.
  intros [[_ Hnodes _] _] Hs. unfold sounding_at in Hs.
  destruct (sources w !! id) as [n|] eqn:Hn; [|discriminate].
  apply (ok_owner _ _ _ (Hnodes id n Hn)). left.
  unfold is_sounding in Hs. destruct (phase n); congruence.
Qed.

Lemma at_most_one (l : list nat) (a : nat) :
  List.NoDup l -> (forall x, In x l -> x = a) -> (length l <= 1)%nat.
Proof.
  intros Hnd Hall. destruct l as [|x [|y l]]; cbn; try lia.
  assert (x = a) by (apply Hall; cbn; auto).
  assert (y = a) by (apply Hall; cbn; auto).
  subst. inversion Hnd as [|? ? Hnot _]. exfalso. apply Hnot. cbn. auto.
Qed.

Lemma active_at_most_one (w : World) :
  consistent w -> (length (active w) <= 1)%nat.
Proof.
  intros Hc.
  assert (Hnd : List.NoDup (active w)).
  { unfold active. apply List.NoDup_filter, List.seq_NoDup. }
  destruct (audioSourceRef w) as [id|] eqn:Hr.
  - apply (at_most_one _ id Hnd). intros x Hx.
    apply in_active in Hx. pose proof (sounding_owner w x Hc Hx). congruence.
  - apply (at_most_one _ 0%nat Hnd). intros x Hx.
    apply in_active in Hx. pose proof (sounding_owner w x Hc Hx). congruence.
Qed.

Lemma active_nil (w : World) :
  (forall id, sounding_at w id = false) -> active w = [].
Proof.
  intros Hq. unfold active.
  induction (seq 0 (length (sources w))) as [|x l IH]; cbn; [reflexivity|].
  rewrite Hq. exact IH.
Qed.

Lemma idle_quiet (w : World) :
  consistent w -> isPlaying w = false -> active w = [].
Proof.
  intros Hc Hip. apply active_nil. intros id.
  destruct (sounding_at w id) eqn:Hs; [|reflexivity].
  pose proof (sounding_owner w id Hc Hs) as Hr.
  destruct Hc as [[Hflag _ _] _]. destruct Hflag as [_ Hflag].
  rewrite Hflag in Hip by congruence. discriminate.
Qed.

Lemma idle_no_session (w : World) :
  consistent w -> isPlaying w = false -> audioSourceRef w = None.
Proof.
  intros [[Hflag _ _] _] Hip. destruct (audioSourceRef w); [|reflexivity].
  destruct Hflag as [_ Hflag]. rewrite Hflag in Hip by congruence. discriminate.
Qed.

(** One more sounding node at the end of a quiet store. *)
Lemma active_snoc (w w' : World) (n : SourceNode) :
  sources w' = sources w ++ [n] -> active w = [] -> is_sounding n = true ->
  active w' = [length (sources w)].
Proof.
  intros Hss Hq Hn. unfold active. rewrite Hss, length_app. cbn [length].
  rewrite Nat.add_1_r, List.seq_S, List.filter_app. cbn.
  unfold sounding_at at 2. rewrite Hss, lookup_snoc_new, Hn.
  replace (List.filter (sounding_at w') (seq 0 (length (sources w)))) with (active w).
  { rewrite Hq. reflexivity. }
  unfold active. apply List.filter_ext_in. intros id Hid.
  apply List.in_seq in Hid. unfold sounding_at.
  rewrite Hss, lookup_app_l by lia. reflexivity.
Qed.

(** [handleSubmit] on a non-blank URL: the session is stopped and the run
    is suspended at the summary. *)
Lemma handleSubmit_result (w : World) :
  consistent w -> is_blank (url w) = false ->
  exists ss cl,
    handleSubmit w =
      (Ret tt,
       {| url := url w; summary := EmptyString; isLoading := true;
          error := None; audioBuffer := None; isPlaying := false;
          audioContextRef := audioContextRef w; audioSourceRef := None;
          sources := ss; pending := Some AwaitSummary;
          calls := cl ++ [CallSummarize (url w)] |}) /\
    length ss = length (sources w).
Proof.
  intros [Hplay _] Hu. unfold handleSubmit, bind, get. rewrite Hu.
  destruct w as [u sm il er ab ip cx rf ss pd cl]. cbn in *.
  match goal with
  | |- context [stopPlayback ?x] =>
      destruct (stopPlayback_result x) as (ss' & cl' & Hstop & _ & Hlen & _)
  end; [exact Hplay|].
  exists ss', cl'. rewrite Hstop. cbn. split; [reflexivity|exact Hlen].
Qed.

(** C1: in every reachable world at most one source node is sounding, and
    it is the one the session ref holds; a toggle from Idle with a buffer
    finds no sounding node and leaves exactly the new one sounding; a new
    pipeline run leaves none sounding, so that whatever was playing is
    terminated before anything new begins. *)
Theorem single_active_instance (w : World) :
  reachable w ->
  (length (active w) <= 1)%nat /\
  (forall id, In id (active w) -> audioSourceRef w = Some id) /\
  (forall w', step Click w = Some w' ->
     isPlaying w = false -> audioBuffer w <> None ->
     active w = [] /\ active w' = [length (sources w)]) /\
  (forall w', step Submit w = Some w' -> is_blank (url w) = false ->
     active w' = []).
Proof.
  intros Hreach. pose proof (reachable_consistent w Hreach) as Hc.
  split; [exact (active_at_most_one w Hc)|].
  split.
  { intros id Hid. apply (sounding_owner w id Hc). apply in_active, Hid. }
  split.
  - intros w' Hstep Hip Hb.
    pose proof (idle_quiet w Hc Hip) as Hq. split; [exact Hq|].
    destruct (audioBuffer w) as [b|] eqn:Hab; [|congruence].
    destruct (audioContextRef w) as [ctx|] eqn:Hcx.
    + unfold step in Hstep. cbn [enabled fire] in Hstep.
      rewrite (togglePlayback_start w b ctx Hip Hab Hcx) in Hstep.
      injection Hstep as <-.
      apply (active_snoc w _ (playing_node b)); [|exact Hq|reflexivity].
      destruct w; reflexivity.
    + destruct Hc as [_ [_ _ Hbuf _]]. exfalso. apply Hbuf; congruence.
  - intros w' Hstep Hu.
    assert (Hc' : consistent w').
    { apply reachable_consistent. exact (reachable_step w Submit w' Hreach Hstep). }
    apply (idle_quiet w' Hc').
    unfold step in Hstep. destruct (enabled Submit w); [|discriminate].
    cbn [fire] in Hstep.
    destruct (handleSubmit_result w Hc Hu) as (ss & cl & Hrun & _).
    rewrite Hrun in Hstep. injection Hstep as <-. reflexivity.
Qed.

(** The theorem on the world of the sample run followed by a start, a
    second run and a second start: instance 1 is the only one sounding. *)
Lemma single_active_instance_witness :
  exists w : World,
    run (loaded_trace ++ [Click] ++ loaded_trace ++ [Click]) initial = Some w /\
    active w = [1%nat] /\
    (length (active w) <= 1)%nat /\
    (forall id, In id (active w) -> audioSourceRef w = Some id).
Proof.
  eexists. split; [vm_compute; reflexivity|].
  split; [vm_compute; reflexivity|].
  match goal with
  | |- (length (active ?w) <= 1)%nat /\ _ =>
      assert (Hw : reachable w)
  end.
  { apply (run_reachable (loaded_trace ++ [Click] ++ loaded_trace ++ [Click])
             initial);
      [exact reachable_initial | vm_compute; reflexivity]. }
  destruct (single_active_instance _ Hw) as (H1 & H2 & _).
  split; [exact H1 | exact H2].
Defined.

Lemma set_isPlaying_same (w : World) :
  set_isPlaying (isPlaying w) w = w.
Proof. destruct w; reflexivity. Qed.

(** What [stopPlayback] does to a consistent world that is Playing. *)
Lemma stop_session_effects (w : World) :
  consistent w -> isPlaying w = true ->
  exists id n,
    audioSourceRef w = Some id /\ sources w !! id = Some n /\
    fst (stopPlayback w) = Ret tt /\
    calls (snd (stopPlayback w))
      = calls w ++ [CallSetOnended id None; CallStop id] /\
    sources (snd (stopPlayback w)) !! id = Some (stopped (with_onended None n)) /\
    stopCalls n = 0%nat /\
    length (sources (snd (stopPlayback w))) = length (sources w) /\
    audioSourceRef (snd (stopPlayback w)) = None /\
    isPlaying (snd (stopPlayback w)) = false /\
    audioBuffer (snd (stopPlayback w)) = audioBuffer w /\
    (forall j, sounding_at (snd (stopPlayback w)) j = false).
Proof.
  intros [Hplay _] Hip. pose proof Hplay as [Hflag Hnodes Href].
  destruct (audioSourceRef w) as [id|] eqn:Hr.
  2:{ destruct Hflag as [Hflag _]. exfalso. apply (Hflag Hip). reflexivity. }
  destruct (Href id eq_refl) as (n & Hn & Hh & Hs).
  pose proof (Hnodes id n Hn) as Hok.
  exists id, n. split; [reflexivity|]. split; [exact Hn|].
  assert (Hstart : startCalls n <> 0%nat).
  { rewrite (ok_started _ _ _ Hok). lia. }
  rewrite (stopPlayback_some w id n Hr Hn Hstart). cbn [fst snd].
  assert (Hnode : (alter stopped id (alter (with_onended None) id (sources w)))
                    !! id = Some (stopped (with_onended None n))).
  { rewrite !list_lookup_alter_eq, Hn. reflexivity. }
  split; [reflexivity|].
  split; [destruct w; reflexivity|].
  split; [destruct w; exact Hnode|].
  split; [exact Hs|].
  split; [destruct w; cbn; rewrite !length_alter; reflexivity|].
  split; [destruct w; reflexivity|].
  split; [destruct w; reflexivity|].
  split; [destruct w; reflexivity|].
  intros j. unfold sounding_at.
  destruct w as [u sm il er ab ip cx rf ss pd cl]. cbn in *.
  destruct (decide (id = j)) as [<-|Hne].
  - rewrite Hnode. reflexivity.
  - rewrite !list_lookup_alter_ne by assumption.
    destruct (ss !! j) as [m|] eqn:Hm; [|reflexivity].
    unfold is_sounding. destruct (phase m) eqn:Hp; try reflexivity.
    assert (Some id = Some j)
      by (apply (ok_owner _ _ _ (Hnodes j m Hm)); auto).
    congruence.
Qed.

(** C3: in a reachable world, a toggle while Playing is [stopPlayback], and
    it returns normally having cleared the natural-end callback of the
    session's node and then stopped it, in that order: that node is over
    with one [stop] call, no node is created, the session ref is released,
    the state is Idle, nothing sounds and the buffer is kept; a toggle while
    Idle with a buffer [b] returns normally, allocates one new source node
    bound to [b], connected to the destination, with the natural-end
    callback attached and started at offset 0, holds it in the session ref
    and sets the state to Playing, leaving it the only sounding node. *)
Theorem toggle_behaviour (w : World) :
  reachable w ->
  (isPlaying w = true ->
     togglePlayback w = stopPlayback w /\
     exists id n,
       audioSourceRef w = Some id /\ sources w !! id = Some n /\
       let w' := snd (togglePlayback w) in
       fst (togglePlayback w) = Ret tt /\
       calls w' = calls w ++ [CallSetOnended id None; CallStop id] /\
       (exists n', sources w' !! id = Some n' /\ onended n' = None /\
                   phase n' = Over /\ stopCalls n' = 1%nat /\
                   buffer n' = buffer n) /\
       length (sources w') = length (sources w) /\
       audioSourceRef w' = None /\
       isPlaying w' = false /\
       audioBuffer w' = audioBuffer w /\
       active w' = []) /\
  (forall b, isPlaying w = false -> audioBuffer w = Some b ->
     let id := length (sources w) in
     let w' := snd (togglePlayback w) in
     fst (togglePlayback w) = Ret tt /\
     length (sources w') = S (length (sources w)) /\
     sources w' !! id =
       Some {| buffer := Some b; connected := true;
               onended := Some ResetPlayback; phase := Sounding;
               offset := Some 0%Z; startCalls := 1; stopCalls := 0;
               endedQueued := false |} /\
     audioSourceRef w' = Some id /\
     isPlaying w' = true /\
     audioBuffer w' = Some b /\
     active w' = [id]).
Proof.
  intros Hreach. pose proof (reachable_consistent w Hreach) as Hc. split.
  - intros Hip.
    assert (Heq : togglePlayback w = stopPlayback w).
    { unfold togglePlayback, bind, get. rewrite Hip. reflexivity. }
    split; [exact Heq|].
    destruct (stop_session_effects w Hc Hip)
      as (id & n & Hr & Hn & Hret & Hcalls & Hnode & Hs & Hlen & Href & Hflag
          & Hbuf & Hquiet).
    exists id, n. split; [exact Hr|]. split; [exact Hn|].
    cbn zeta. rewrite Heq.
    split; [exact Hret|]. split; [exact Hcalls|].
    split.
    { exists (stopped (with_onended None n)). split; [exact Hnode|].
      cbn. rewrite Hs. auto. }
    split; [exact Hlen|]. split; [exact Href|]. split; [exact Hflag|].
    split; [exact Hbuf|].
    apply active_nil. exact Hquiet.
  - intros b Hip Hab.
    destruct (audioContextRef w) as [ctx|] eqn:Hcx.
    + cbn zeta. rewrite (togglePlayback_start w b ctx Hip Hab Hcx).
      cbn [fst snd].
      split; [reflexivity|].
      split; [destruct w; cbn; rewrite length_app; cbn; lia|].
      split; [destruct w; cbn; apply lookup_snoc_new|].
      split; [destruct w; reflexivity|].
      split; [destruct w; reflexivity|].
      split; [destruct w; cbn in *; exact Hab|].
      apply (active_snoc w _ (playing_node b)).
      * destruct w; reflexivity.
      * exact (idle_quiet w Hc Hip).
      * reflexivity.
    + destruct Hc as [_ [_ _ Hbuf _]]. exfalso. apply Hbuf; congruence.
Qed.

(** The theorem on the world of the sample run: the first toggle starts
    instance 0. *)
Lemma toggle_behaviour_witness :
  exists w : World,
    run loaded_trace initial = Some w /\
    isPlaying w = false /\
    fst (togglePlayback w) = Ret tt /\
    audioSourceRef (snd (togglePlayback w)) = Some 0%nat /\
    isPlaying (snd (togglePlayback w)) = true.
Proof.
  eexists. split; [vm_compute; reflexivity|].
  split; [reflexivity|].
  match goal with
  | |- fst (togglePlayback ?w) = _ /\ _ => assert (Hw : reachable w)
  end.
  { apply (run_reachable loaded_trace initial);
      [exact reachable_initial | vm_compute; reflexivity]. }
  destruct (toggle_behaviour _ Hw) as [_ Hstart].
  destruct (Hstart _ eq_refl eq_refl) as (H1 & _ & _ & H4 & H5 & _).
  split; [exact H1|]. split; [exact H4 | exact H5].
Defined.

Lemma ended_unhandled (w : World) (id : nat) (n : SourceNode) :
  sources w !! id = Some n -> onended n = None ->
  snd (fire (EndedEvent id) w) = set_sources (alter dequeued id (sources w)) w.
Proof.
  intros Hn Hh. cbn [fire]. unfold bind, get, update_node, modify. cbn.
  rewrite Hn. cbn. rewrite Hh. reflexivity.
Qed.

(** C5: in a reachable world, [stopPlayback] while Playing returns normally
    after clearing the natural-end callback of the session's node and then
    stopping it, in that order; the node is over with one [stop] call, no
    session is held, the state is Idle, nothing sounds, and the [ended]
    event of that node delivered afterwards changes neither the state nor
    the session ref.  While Idle [stopPlayback] returns normally and changes
    nothing, also when called at the end of the natural-end callback.  No
    node of a reachable world was started or stopped twice. *)
Theorem stop_behaviour (w : World) :
  reachable w ->
  (isPlaying w = true ->
     exists id n,
       audioSourceRef w = Some id /\ sources w !! id = Some n /\
       let w' := snd (stopPlayback w) in
       fst (stopPlayback w) = Ret tt /\
       calls w' = calls w ++ [CallSetOnended id None; CallStop id] /\
       (exists n', sources w' !! id = Some n' /\ onended n' = None /\
                   phase n' = Over /\ stopCalls n' = 1%nat) /\
       audioSourceRef w' = None /\
       isPlaying w' = false /\
       active w' = [] /\
       (forall w'', step (EndedEvent id) w' = Some w'' ->
          isPlaying w'' = false /\ audioSourceRef w'' = None /\
          active w'' = [])) /\
  (isPlaying w = false -> stopPlayback w = (Ret tt, w)) /\
  (forall h : EndedHandler,
     (run_handler h;; stopPlayback) w = run_handler h w) /\
  (forall id n, sources w !! id = Some n ->
     startCalls n = 1%nat /\ (stopCalls n <= 1)%nat).
Proof.
  intros Hreach. pose proof (reachable_consistent w Hreach) as Hc.
  split; [|split; [|split]].
  - intros Hip. destruct Hc as [Hplay Hpipe].
    pose proof Hplay as [Hflag Hnodes Href].
    destruct (audioSourceRef w) as [id|] eqn:Hr.
    2:{ destruct Hflag as [Hflag _]. exfalso. apply (Hflag Hip). reflexivity. }
    destruct (Href id eq_refl) as (n & Hn & Hh & Hs).
    pose proof (Hnodes id n Hn) as Hok.
    exists id, n. split; [reflexivity|]. split; [exact Hn|].
    assert (Hstart : startCalls n <> 0%nat).
    { rewrite (ok_started _ _ _ Hok). lia. }
    cbn zeta. rewrite (stopPlayback_some w id n Hr Hn Hstart).
    cbn [fst snd].
    assert (Hnode : (alter stopped id (alter (with_onended None) id (sources w)))
                      !! id = Some (stopped (with_onended None n))).
    { rewrite !list_lookup_alter_eq, Hn. reflexivity. }
    assert (Hquiet : forall j,
      sounding_at (set_isPlaying false (set_audioSourceRef None
         (set_sources (alter stopped id (alter (with_onended None) id (sources w)))
            (set_calls (calls w ++ [CallSetOnended id None; CallStop id]) w)))) j
      = false).
    { intros j. unfold sounding_at. destruct w as [u sm il er ab ip cx rf ss pd cl].
      cbn in *. destruct (decide (id = j)) as [<-|Hne].
      - rewrite Hnode. reflexivity.
      - rewrite !list_lookup_alter_ne by assumption.
        destruct (ss !! j) as [m|] eqn:Hm; [|reflexivity].
        unfold is_sounding. destruct (phase m) eqn:Hp; try reflexivity.
        assert (Some id = Some j)
          by (apply (ok_owner _ _ _ (Hnodes j m Hm)); auto).
        congruence. }
    split; [reflexivity|].
    split; [destruct w; reflexivity|].
    split.
    { exists (stopped (with_onended None n)).
      split; [destruct w; exact Hnode|].
      split; [reflexivity|]. split; [reflexivity|]. cbn. rewrite Hs. reflexivity. }
    split; [destruct w; reflexivity|].
    split; [destruct w; reflexivity|].
    split; [apply active_nil; exact Hquiet|].
    intros w'' Hstep. unfold step in Hstep.
    match type of Hstep with
    | (if enabled _ ?x then _ else _) = _ => remember x as w1 eqn:Hw1
    end.
    destruct (enabled (EndedEvent id) w1); [|discriminate].
    injection Hstep as <-.
    assert (Hlk : sources w1 !! id = Some (stopped (with_onended None n))).
    { subst w1. destruct w; exact Hnode. }
    pose proof (ended_unhandled w1 id _ Hlk eq_refl) as Hres.
    cbn [fire] in Hres. rewrite Hres.
    split; [subst w1; destruct w; reflexivity|].
    split; [subst w1; destruct w; reflexivity|].
    apply active_nil. intros j. unfold sounding_at.
    pose proof (Hquiet j) as Hq. unfold sounding_at in Hq.
    replace (sources (set_sources (alter dequeued id (sources w1)) w1))
      with (alter dequeued id (sources w1)) by (destruct w1; reflexivity).
    destruct (decide (id = j)) as [<-|Hne].
    + rewrite list_lookup_alter_eq, Hlk. reflexivity.
    + rewrite list_lookup_alter_ne by assumption. exact Hq.
  - intros Hip. rewrite (stopPlayback_none w (idle_no_session w Hc Hip)).
    rewrite <- Hip. rewrite set_isPlaying_same. reflexivity.
  - intros []. destruct w; reflexivity.
  - intros id n Hn. destruct Hc as [[_ Hnodes _] _].
    pose proof (Hnodes id n Hn) as Hok.
    split; [apply Hok | apply Hok].
Qed.

(** The theorem on the world of the sample run followed by a start. *)
Lemma stop_behaviour_witness :
  exists w : World,
    run (loaded_trace ++ [Click]) initial = Some w /\
    isPlaying w = true /\
    fst (stopPlayback w) = Ret tt /\
    isPlaying (snd (stopPlayback w)) = false /\
    active (snd (stopPlayback w)) = [].
Proof.
  eexists. split; [vm_compute; reflexivity|].
  split; [reflexivity|].
  match goal with
  | |- fst (stopPlayback ?w) = _ /\ _ => assert (Hw : reachable w)
  end.
  { apply (run_reachable (loaded_trace ++ [Click]) initial);
      [exact reachable_initial | vm_compute; reflexivity]. }
  destruct (stop_behaviour _ Hw) as [Hstop _].
  destruct (Hstop eq_refl) as (id & n & _ & _ & H1 & _ & _ & _ & H5 & H6 & _).
  split; [exact H1|]. split; [exact H5 | exact H6].
Defined.

(** C4 as stated fails: in the world of the sample run the context is
    suspended, and the toggle leaves the new node sounding although no
    resume has completed. *)
Lemma start_does_not_await_resume :
  exists w : World,
    run loaded_trace initial = Some w /\
    isPlaying w = false /\
    state <$> audioContextRef w = Some Suspended /\
    ~ (forall w', step Click w = Some w' ->
       forall id, In id (active w') ->
       exists ctx, audioContextRef w' = Some ctx /\ state ctx = Running).
Proof.
  eexists. split; [vm_compute; reflexivity|].
  split; [reflexivity|]. split; [reflexivity|].
  intros Hclaim.
  destruct (Hclaim _ eq_refl 0%nat) as (ctx & Hctx & Hrun).
  - vm_compute. left. reflexivity.
  - vm_compute in Hctx. injection Hctx as <-. discriminate Hrun.
Qed.

(** C4, amended: a toggle from Idle on a suspended context returns normally
    having called [resume()] first and then created, wired and started the
    new node, all in the same run of the handler; on return the node is
    sounding and the context is still suspended with its resume pending,
    which settles as a later event of its own. *)
Theorem start_requests_resume
    (w : World) (b : AudioBuffer) (ctx : AudioContext) :
  isPlaying w = false -> audioBuffer w = Some b ->
  audioContextRef w = Some ctx -> state ctx = Suspended ->
  let id := length (sources w) in
  let w' := snd (togglePlayback w) in
  fst (togglePlayback w) = Ret tt /\
  calls w' = calls w ++
    [CallResume; CallCreateSource id; CallSetBuffer id; CallConnect id;
     CallSetOnended id (Some ResetPlayback); CallStart id 0] /\
  audioContextRef w' = Some {| state := Suspended; resumePending := true |} /\
  (exists n, sources w' !! id = Some n /\ phase n = Sounding /\
             offset n = Some 0%Z) /\
  enabled ResumeSettled w' = true /\
  (forall w'', step ResumeSettled w' = Some w'' ->
     audioContextRef w'' = Some {| state := Running; resumePending := false |} /\
     sources w'' = sources w').
Proof.
  intros Hip Hab Hcx Hst. cbn zeta.
  rewrite (togglePlayback_start w b ctx Hip Hab Hcx). cbn [fst snd].
  unfold resumed, start_calls. rewrite Hst.
  split; [reflexivity|].
  split; [destruct w; reflexivity|].
  split; [destruct w; reflexivity|].
  split.
  { exists (playing_node b). split; [destruct w; cbn; apply lookup_snoc_new|].
    split; reflexivity. }
  split; [destruct w; reflexivity|].
  intros w'' Hstep. unfold step in Hstep.
  destruct (enabled ResumeSettled _); [|discriminate].
  injection Hstep as <-. split; destruct w; reflexivity.
Qed.

(** The theorem on the world of the sample run. *)
Lemma start_requests_resume_witness :
  exists w : World,
    run loaded_trace initial = Some w /\
    fst (togglePlayback w) = Ret tt /\
    audioContextRef (snd (togglePlayback w)) =
      Some {| state := Suspended; resumePending := true |}.
Proof.
  eexists. split; [vm_compute; reflexivity|].
  match goal with
  | |- fst (togglePlayback ?w) = _ /\ _ =>
      destruct (start_requests_resume w
                  {| sampleRate := 24000; numberOfChannels := 1;
                     channelData := [[(-32768 # 32768); (32767 # 32768)]] |}
                  {| state := Suspended; resumePending := false |}
                  eq_refl eq_refl eq_refl eq_refl)
        as (H1 & _ & H3 & _)
  end.
  split; [exact H1 | exact H3].
Defined.

(** C6 as stated fails: in the initial world no buffer is available and the
    toggle does not throw; it returns with the world unchanged. *)
Lemma start_without_buffer_does_not_fail :
  audioBuffer initial = None /\ isPlaying initial = false /\
  ~ fails togglePlayback initial /\
  togglePlayback initial = (Ret tt, initial).
Proof.
  split; [reflexivity|]. split; [reflexivity|]. split; [|reflexivity].
  intros [e He]. discriminate He.
Qed.

(** C6, amended: a toggle from Idle with no buffer available returns
    normally and changes nothing: no error is raised or shown, no node is
    created and the state stays Idle. *)
Theorem toggle_without_buffer_is_noop (w : World) :
  isPlaying w = false -> audioBuffer w = None ->
  togglePlayback w = (Ret tt, w) /\ ~ fails togglePlayback w.
Proof.
  intros Hip Hab.
  assert (Heq : togglePlayback w = (Ret tt, w)).
  { unfold togglePlayback, bind, get. rewrite Hip, Hab. reflexivity. }
  split; [exact Heq|]. intros [e He]. rewrite Heq in He. discriminate He.
Qed.

(** The theorem on the initial world. *)
Lemma toggle_without_buffer_is_noop_witness :
  togglePlayback initial = (Ret tt, initial) /\ ~ fails togglePlayback initial.
Proof.
  exact (toggle_without_buffer_is_noop initial eq_refl eq_refl).
Defined.

End ControllerTheorems.

Section PipelineTheorems.
Import Audio GeminiService App.
Local Open Scope action_scope.

(** A piece of the [try] block that throws lands in [catch] and [finally]. *)
Lemma settle_throw (piece : M (option Stage)) (w : World) (err : Exn) :
  fst (piece w) = Throw err ->
  settle piece w =
    (Ret tt,
     set_pending None
       (set_isLoading false
          (set_error (Some (error_text err)) (snd (piece w))))).
Proof.
  intros Hthrow. unfold settle, try_catch, bind.
  destruct (piece w) as [[next|e] w1]; cbn in *; [discriminate|].
  injection Hthrow as ->. reflexivity.
Qed.

(** The pieces of the [try] block write neither the flag, the session ref
    nor the store, and a piece that throws has not written the buffer. *)
Lemma piece_frame (piece : M (option Stage)) (w : World) :
  (exists reply, piece = after_summary reply) \/
  (exists reply created, piece = after_speech reply created) \/
  (exists result, piece = after_buffer result) ->
  isPlaying (snd (piece w)) = isPlaying w /\
  audioSourceRef (snd (piece w)) = audioSourceRef w /\
  sources (snd (piece w)) = sources w /\
  (forall err, fst (piece w) = Throw err ->
     audioBuffer (snd (piece w)) = audioBuffer w).
Proof.
  destruct w as [u sm il er ab ip cx rf ss pd cl].
  intros [[reply ->]|[[reply [created ->]]|[result ->]]].
  - unfold after_summary, bind, lift.
    destruct (summarizeArticleFromUrl reply); cbn; auto.
  - unfold after_speech, bind, lift.
    destruct (generateSpeechFromText reply) as [audioB64|e]; cbn; auto.
    destruct (falsy audioB64); cbn; auto.
    unfold ensure_context, bind, get, lift. cbn.
    destruct cx as [ctx|]; cbn.
    + destruct (decode (default EmptyString audioB64)); cbn; auto.
    + destruct created; cbn; auto.
      destruct (decode (default EmptyString audioB64)); cbn; auto.
  - unfold after_buffer, bind, lift.
    destruct result; cbn; auto.
    repeat split. intros err Herr. discriminate Herr.
Qed.

(** A failed piece on a consistent world with a run in flight. *)
Lemma failed_piece_recovers
    (piece : M (option Stage)) (w : World) (err : Exn) :
  consistent w -> pending w <> None ->
  (exists reply, piece = after_summary reply) \/
  (exists reply created, piece = after_speech reply created) \/
  (exists result, piece = after_buffer result) ->
  fst (piece w) = Throw err ->
  consistent (snd (settle piece w)) ->
  recovered (snd (settle piece w)) (error_text err).
Proof.
  intros [Hplay [_ Hp _ _]] Hpd Hkind Hthrow Hc'.
  destruct (Hp Hpd) as [Hab Hip].
  destruct (piece_frame piece w Hkind) as (Fp & Fr & Fs & Fb).
  specialize (Fb err Hthrow).
  rewrite (settle_throw piece w err Hthrow) in *. cbn [snd] in *.
  assert (Hidle : isPlaying (set_pending None (set_isLoading false
            (set_error (Some (error_text err)) (snd (piece w))))) = false).
  { destruct (snd (piece w)); cbn in *. congruence. }
  unfold recovered.
  split; [exact Hidle|].
  split; [exact (idle_no_session _ Hc' Hidle)|].
  split; [exact (idle_quiet _ Hc' Hidle)|].
  split; [destruct (snd (piece w)); cbn in *; congruence|].
  repeat split; destruct (snd (piece w)); reflexivity.
Qed.

Lemma settle_returns (piece : M (option Stage)) (w : World) :
  fst (settle piece w) = Ret tt.
Proof.
  unfold settle, try_catch, bind.
  destruct (piece w) as [[[stage|]|e] w1]; reflexivity.
Qed.

(** C7: in a reachable world, when a continuation of the pipeline is
    delivered and the piece of the [try] block it runs throws [err] (the
    summary call failed, the speech call failed or gave no audio, the
    context could not be created, the byte decoder or the converter
    failed), the handler itself returns normally and leaves the component
    Idle with no session and nothing sounding, no buffer, not loading,
    nothing suspended, the message of [err] shown and the form enabled for a
    new run. *)
Theorem pipeline_failure_recovers
    (w : World) (e : Event) (w' : World) (err : Exn) :
  reachable w -> step e w = Some w' ->
  (exists reply,
     e = SummaryReply reply /\ fst (after_summary reply w) = Throw err) \/
  (exists reply created,
     e = SpeechReply reply created /\
     fst (after_speech reply created w) = Throw err) \/
  (e = BufferSettled /\ pending w = Some (AwaitBuffer (Throw err))) ->
  fst (fire e w) = Ret tt /\ recovered w' (error_text err).
Proof.
  intros Hreach Hstep Hfail.
  pose proof (reachable_consistent w Hreach) as Hc.
  pose proof (reachable_consistent w'
                (reachable_step w e w' Hreach Hstep)) as Hc'.
  unfold step in Hstep. destruct (enabled e w) eqn:Hen; [|discriminate].
  injection Hstep as <-.
  destruct Hfail as [[reply [-> Hthrow]]|[[reply [created [-> Hthrow]]]|[-> Hpd]]];
    cbn [fire] in *.
  - split; [apply settle_returns|].
    apply failed_piece_recovers; eauto.
    cbn in Hen. destruct (pending w); [discriminate|discriminate].
  - split; [apply settle_returns|].
    apply failed_piece_recovers; eauto 6.
    cbn in Hen. destruct (pending w); [discriminate|discriminate].
  - unfold bind, get in *. rewrite Hpd in *.
    split; [apply settle_returns|].
    apply failed_piece_recovers; eauto 6.
    rewrite Hpd. discriminate.
Qed.

(** The theorem on a run whose speech reply carries text that is not
    base64: the byte decoder fails and the component recovers. *)
Lemma pipeline_failure_recovers_witness :
  exists w w' : World,
    run summarised_trace initial = Some w /\
    step (SpeechReply (Ret (reply_with EmptyString (Some "!!!"))) (Ret Running)) w
      = Some w' /\
    recovered w' "Invalid base64 input.".
Proof.
  eexists. eexists. split; [vm_compute; reflexivity|].
  split; [vm_compute; reflexivity|].
  match goal with
  | |- recovered ?w1 _ =>
      refine (proj2 (pipeline_failure_recovers _
                (SpeechReply (Ret (reply_with EmptyString (Some "!!!"))) (Ret Running))
                w1 DecodeError _ _ _))
  end.
  - apply (run_reachable summarised_trace initial);
      [exact reachable_initial | vm_compute; reflexivity].
  - vm_compute. reflexivity.
  - right. left. eexists. eexists. split; [reflexivity|]. vm_compute. reflexivity.
Defined.

(** The continuation after a [null] from the speech collaborator. *)
Lemma null_speech_step
    (w w' : World) (reply : outcome GenerateContentResponse)
    (created : outcome ContextState) :
  generateSpeechFromText reply = Ret None ->
  step (SpeechReply reply created) w = Some w' ->
  w' = set_pending None
         (set_isLoading false
            (set_error (Some "Failed to generate audio.") w)).
Proof.
  intros Hnull Hstep. unfold step in Hstep.
  destruct (enabled _ w); [|discriminate]. injection Hstep as <-.
  cbn [fire]. unfold settle, try_catch, after_speech, bind, lift.
  rewrite Hnull. reflexivity.
Qed.

(** C8: when the speech collaborator returns [null], the continuation of
    the pipeline returns normally with the message "Failed to generate
    audio." shown, a message no other failure of the two services or of the
    form produces; it makes no outgoing call at all (neither the byte
    decoder nor the converter is invoked, no context is created), sets no
    buffer and ends the run. *)
Theorem absent_audio_reported
    (w w' : World) (reply : outcome GenerateContentResponse)
    (created : outcome ContextState) :
  generateSpeechFromText reply = Ret None ->
  step (SpeechReply reply created) w = Some w' ->
  fst (fire (SpeechReply reply created) w) = Ret tt /\
  error w' = Some "Failed to generate audio." /\
  calls w' = calls w /\
  audioContextRef w' = audioContextRef w /\
  audioBuffer w' = audioBuffer w /\
  isLoading w' = false /\ pending w' = None /\
  (forall r e, summarizeArticleFromUrl r = Throw e ->
     error_text e <> "Failed to generate audio.") /\
  (forall r e, generateSpeechFromText r = Throw e ->
     error_text e <> "Failed to generate audio.") /\
  "Please enter a valid URL." <> "Failed to generate audio." /\
  (forall v, error_text (Thrown v) <> "Failed to generate audio.").
Proof.
  intros Hnull Hstep.
  rewrite (null_speech_step w w' reply created Hnull Hstep).
  split; [apply settle_returns|].
  split; [destruct w; reflexivity|].
  split; [destruct w; reflexivity|].
  split; [destruct w; reflexivity|].
  split; [destruct w; reflexivity|].
  split; [destruct w; reflexivity|].
  split; [destruct w; reflexivity|].
  split.
  { intros [r|x] e He; cbn in He; [discriminate|].
    injection He as <-. cbn. discriminate. }
  split.
  { intros [r|x] e He; cbn in He; [discriminate|].
    injection He as <-. cbn. discriminate. }
  split; [discriminate|]. intros v. cbn. discriminate.
Qed.

(** The theorem on a run whose speech reply has no candidates. *)
Lemma absent_audio_reported_witness :
  exists w w' : World,
    run summarised_trace initial = Some w /\
    step (SpeechReply (Ret {| text := EmptyString; candidates := None |}) (Ret Running)) w
      = Some w' /\
    error w' = Some "Failed to generate audio." /\
    calls w' = calls w.
Proof.
  eexists. eexists. split; [vm_compute; reflexivity|].
  split; [vm_compute; reflexivity|].
  match goal with
  | |- error ?w1 = _ /\ calls _ = calls ?w0 =>
      destruct (absent_audio_reported w0 w1
                  (Ret {| text := EmptyString; candidates := None |}) (Ret Running)
                  eq_refl eq_refl)
        as (_ & H2 & H3 & _)
  end.
  split; [exact H2 | exact H3].
Defined.

(** C10: [generateSpeechFromText] returns [null] when the response carries
    no audio payload and also when the payload is the empty string; the
    continuation of the pipeline then shows "Failed to generate audio."
    without calling the byte decoder or the converter, and sets no
    buffer. *)
Theorem empty_audio_is_absent (response : GenerateContentResponse) :
  inline_audio response = None \/ inline_audio response = Some EmptyString ->
  generateSpeechFromText (Ret response) = Ret None /\
  (forall w w' created,
     step (SpeechReply (Ret response) created) w = Some w' ->
     error w' = Some "Failed to generate audio." /\
     calls w' = calls w /\
     audioBuffer w' = audioBuffer w /\
     pending w' = None).
Proof.
  intros Hpayload.
  assert (Hnull : generateSpeechFromText (Ret response) = Ret None).
  { cbn. destruct Hpayload as [-> | ->]; reflexivity. }
  split; [exact Hnull|].
  intros w w' created Hstep.
  rewrite (null_speech_step w w' (Ret response) created Hnull Hstep).
  destruct w; cbn; auto.
Qed.

(** The theorem on a reply whose payload is the empty string. *)
Lemma empty_audio_is_absent_witness :
  inline_audio (reply_with EmptyString (Some EmptyString)) = Some EmptyString /\
  generateSpeechFromText (Ret (reply_with EmptyString (Some EmptyString))) = Ret None.
Proof.
  split; [reflexivity|].
  exact (proj1 (empty_audio_is_absent (reply_with EmptyString (Some EmptyString))
                  (or_intror eq_refl))).
Defined.

End PipelineTheorems.

(** * Further properties of the handlers *)

Section TrimFacts.
Import Audio GeminiService App Page.
#[local] Arguments js_whitespace : simpl never.

Lemma trimStart_nil (u : list N) :
  trimStart u = [] <-> is_blank u = true.
Proof.
  unfold is_blank. induction u as [|c u IH]; cbn.
  - tauto.
  - destruct (js_whitespace c); cbn.
    + exact IH.
    + split; discriminate.
Qed.

Lemma trimStart_blank (u : list N) :
  is_blank (trimStart u) = is_blank u.
Proof.
  unfold is_blank. induction u as [|c u IH]; cbn; [reflexivity|].
  destruct (js_whitespace c) eqn:Hc; cbn; [exact IH|].
  rewrite Hc. reflexivity.
Qed.

Lemma is_blank_rev (u : list N) : is_blank (rev u) = is_blank u.
Proof.
  unfold is_blank. induction u as [|c u IH]; cbn; [reflexivity|].
  rewrite forallb_app, IH. cbn. rewrite andb_true_r. apply andb_comm.
Qed.

Lemma trimStart_head (v : list N) :
  trimStart v <> [] ->
  exists c, head (trimStart v) = Some c /\ js_whitespace c = false.
Proof.
  induction v as [|c v IH]; cbn; [congruence|].
  destruct (js_whitespace c) eqn:Hc; [exact IH|].
  intros _. exists c. auto.
Qed.

Lemma trim_nil_iff (u : list N) : trim u = [] <-> is_blank u = true.
Proof.
  unfold trim, trimEnd. split.
  - intros Hnil. apply (f_equal (@rev N)) in Hnil.
    rewrite rev_involutive in Hnil. cbn in Hnil.
    apply trimStart_nil in Hnil.
    rewrite is_blank_rev, trimStart_blank in Hnil. exact Hnil.
  - intros Hb. apply trimStart_nil in Hb. rewrite Hb. reflexivity.
Qed.

Lemma trimStart_snoc (a : list N) (b : N) :
  js_whitespace b = false -> exists a', trimStart (a ++ [b]) = a' ++ [b].
Proof.
  intros Hb. induction a as [|y a IHa]; cbn.
  - rewrite Hb. exists []. reflexivity.
  - destruct (js_whitespace y).
    + exact IHa.
    + exists (y :: a). reflexivity.
Qed.

(** X1: [!url.trim()] holds exactly of the strings made of white space and
    line terminators only (the empty string among them), and a string that
    is not blank keeps, trimmed, a first and a last code unit that are not
    white space. *)
Theorem trim_empty_iff_blank (u : list N) :
  (trim u = [] <-> is_blank u = true) /\
  (is_blank u = false ->
   exists first last,
     head (trim u) = Some first /\ js_whitespace first = false /\
     List.last (trim u) 0%N = last /\ js_whitespace last = false).
Proof.
  split; [exact (trim_nil_iff u)|].
  intros Hnb.
  assert (Hne : trim u <> []).
  { intros Hnil. apply trim_nil_iff in Hnil. congruence. }
  unfold trim, trimEnd in *.
  set (v := trimStart u) in *.
  assert (Hv : trimStart (rev v) <> []).
  { intros Hnil. apply Hne. rewrite Hnil. reflexivity. }
  destruct (trimStart_head (rev v) Hv) as (lastc & Hlast & Hlastws).
  assert (Hl : List.last (rev (trimStart (rev v))) 0%N = lastc).
  { destruct (trimStart (rev v)) as [|c t]; [discriminate|].
    cbn in Hlast. injection Hlast as ->. cbn. apply last_last. }
  assert (Hvne : v <> []).
  { intros Hnil. apply Hv. rewrite Hnil. reflexivity. }
  destruct (trimStart_head u Hvne) as (firstc & Hfirst & Hfirstws).
  fold v in Hfirst.
  destruct v as [|x t]; [congruence|]. cbn in Hfirst. injection Hfirst as ->.
  cbn [rev] in *.
  destruct (trimStart_snoc (rev t) firstc Hfirstws) as (a' & Ha').
  rewrite Ha' in *. rewrite rev_app_distr in *. cbn in *.
  exists firstc, lastc. auto.
Qed.

(** The URL " a b\n" is not blank and trims to "a b". *)
Lemma trim_empty_iff_blank_witness :
  is_blank [32; 97; 32; 98; 10]%N = false /\
  trim [32; 97; 32; 98; 10]%N = [97; 32; 98]%N /\
  exists first last,
    head (trim [32; 97; 32; 98; 10]%N) = Some first /\
    js_whitespace first = false /\
    List.last (trim [32; 97; 32; 98; 10]%N) 0%N = last /\
    js_whitespace last = false.
Proof.
  split; [reflexivity|]. split; [reflexivity|].
  exact (proj2 (trim_empty_iff_blank [32; 97; 32; 98; 10]%N) eq_refl).
Defined.

End TrimFacts.

Section HandlerFacts.
Import Audio GeminiService App Page.
Local Open Scope action_scope.

(** The fields [stopPlayback] never writes. *)
Lemma stopPlayback_frame (w : World) :
  let w' := snd (stopPlayback w) in
  url w' = url w /\ summary w' = summary w /\ isLoading w' = isLoading w /\
  error w' = error w /\ audioBuffer w' = audioBuffer w /\
  audioContextRef w' = audioContextRef w /\ pending w' = pending w.
Proof.
  destruct w as [u sm il er ab ip cx rf ss pd cl].
  unfold stopPlayback, bind, get. cbn.
  destruct rf as [id|]; cbn; [|repeat split].
  unfold stop, bind, get. cbn.
  destruct (alter (with_onended None) id ss !! id) as [n|]; cbn;
    [|repeat split].
  destruct (startCalls n); cbn; repeat split.
Qed.

(** The fields [togglePlayback] never writes. *)
Lemma togglePlayback_frame (w : World) :
  let w' := snd (togglePlayback w) in
  url w' = url w /\ summary w' = summary w /\ isLoading w' = isLoading w /\
  error w' = error w /\ audioBuffer w' = audioBuffer w /\
  pending w' = pending w /\
  (audioContextRef w <> None -> audioContextRef w' <> None) /\
  (audioContextRef w = None -> audioContextRef w' = None).
Proof.
  cbn zeta. destruct (isPlaying w) eqn:Hip.
  - replace (togglePlayback w) with (stopPlayback w)
      by (unfold togglePlayback, bind, get; rewrite Hip; reflexivity).
    destruct (stopPlayback_frame w) as (H1 & H2 & H3 & H4 & H5 & H6 & H7).
    rewrite H6. tauto.
  - destruct (audioBuffer w) as [b|] eqn:Hab;
      [destruct (audioContextRef w) as [ctx|] eqn:Hcx|].
    + rewrite (togglePlayback_start w b ctx Hip Hab Hcx).
      destruct w; cbn in *. subst. repeat split; congruence.
    + replace (togglePlayback w) with (Ret tt, w)
        by (unfold togglePlayback, bind, get; rewrite Hip, Hab, Hcx; reflexivity).
      cbn. rewrite Hab, Hcx. tauto.
    + replace (togglePlayback w) with (Ret tt, w)
        by (unfold togglePlayback, bind, get; rewrite Hip, Hab; reflexivity).
      cbn. rewrite Hab. tauto.
Qed.

(** X2: in a reachable world no handler and no continuation ever throws,
    whatever the event and whatever the collaborators replied: [stop()] is
    never called on a node that was not started, [start()] never on a node
    that was, and every failure of the pipeline is caught. *)
Theorem handlers_never_throw (w : World) (e : Event) :
  reachable w -> fst (fire e w) = Ret tt.
Proof.
  intros Hreach. pose proof (reachable_consistent w Hreach) as Hc.
  destruct e as [u| |reply|reply created| | |id|id| ]; cbn [fire].
  - reflexivity.
  - destruct (is_blank (url w)) eqn:Hu.
    + unfold handleSubmit, bind, get. rewrite Hu. reflexivity.
    + destruct (handleSubmit_result w Hc Hu) as (ss & cl & Hrun & _).
      rewrite Hrun. reflexivity.
  - apply settle_returns.
  - apply settle_returns.
  - unfold bind, get. cbn. destruct (pending w) as [[| |r]|];
      try reflexivity. apply settle_returns.
  - destruct (isPlaying w) eqn:Hip.
    + destruct Hc as [Hplay _].
      destruct (stopPlayback_result w Hplay) as (ss & cl & Hstop & _).
      unfold togglePlayback, bind, get. rewrite Hip, Hstop. reflexivity.
    + destruct (audioBuffer w) as [b|] eqn:Hab;
        [destruct (audioContextRef w) as [ctx|] eqn:Hcx|].
      * rewrite (togglePlayback_start w b ctx Hip Hab Hcx). reflexivity.
      * unfold togglePlayback, bind, get. rewrite Hip, Hab, Hcx. reflexivity.
      * unfold togglePlayback, bind, get. rewrite Hip, Hab. reflexivity.
  - reflexivity.
  - unfold bind, get, update_node, modify. cbn.
    destruct (sources w !! id ≫= onended) as [[]|]; reflexivity.
  - reflexivity.
Qed.

(** The theorem on the world of the sample run followed by a start, for the
    toggle that stops it. *)
Lemma handlers_never_throw_witness :
  exists w : World,
    run (loaded_trace ++ [Click]) initial = Some w /\
    fst (fire Click w) = Ret tt.
Proof.
  eexists. split; [vm_compute; reflexivity|].
  apply handlers_never_throw.
  apply (run_reachable (loaded_trace ++ [Click]) initial);
    [exact reachable_initial | vm_compute; reflexivity].
Defined.

End HandlerFacts.

Section SubmitFacts.
Import Audio GeminiService App Page.
Local Open Scope action_scope.
#[local] Arguments stopPlayback : simpl never.
#[local] Arguments js_whitespace : simpl never.

(** X3: a submit of a URL that trims to the empty string only shows
    "Please enter a valid URL.": no run begins, no call leaves the
    component, the buffer is kept and whatever is playing keeps playing. *)
Theorem blank_submit_only_reports (w w' : World) :
  trim (url w) = [] -> step Submit w = Some w' ->
  w' = set_error (Some "Please enter a valid URL.") w /\
  calls w' = calls w /\ pending w' = pending w /\ isLoading w' = false /\
  audioBuffer w' = audioBuffer w /\ isPlaying w' = isPlaying w /\
  audioSourceRef w' = audioSourceRef w /\ active w' = active w.
Proof.
  intros Hblank Hstep. apply trim_nil_iff in Hblank.
  unfold step in Hstep. destruct (enabled Submit w) eqn:Hen; [|discriminate].
  injection Hstep as <-. cbn [fire].
  unfold handleSubmit, bind, get. rewrite Hblank.
  cbn in Hen. destruct w as [u sm il er ab ip cx rf ss pd cl]. cbn in *.
  destruct il; [discriminate|].
  repeat split.
Qed.

(** The theorem on the sample run followed by a start, then a URL of
    spaces submitted: instance 0 keeps sounding. *)
Lemma blank_submit_only_reports_witness :
  exists w w' : World,
    run (loaded_trace ++ [Click; ChangeUrl [32; 32]%N]) initial = Some w /\
    step Submit w = Some w' /\
    trim (url w) = [] /\
    error w' = Some "Please enter a valid URL." /\
    active w' = [0%nat].
Proof.
  eexists. eexists. split; [vm_compute; reflexivity|].
  split; [vm_compute; reflexivity|].
  split; [reflexivity|].
  match goal with
  | |- error ?w1 = _ /\ active _ = _ =>
      destruct (fun w0 Hb Hs => blank_submit_only_reports w0 w1 Hb Hs)
        with (w0 := set_url [32; 32]%N
                      (snd (togglePlayback
                              (default initial (run loaded_trace initial)))))
        as (Hw & _)
  end.
  - reflexivity.
  - vm_compute. reflexivity.
  - split; [rewrite Hw; reflexivity | rewrite Hw; reflexivity].
Defined.

(** X4: in a reachable world a submit of a URL that does not trim to the
    empty string begins a run: the component is loading and suspended at
    the summary, error, summary and buffer are cleared, playback is stopped
    with no session and nothing sounding, the form is disabled, and the
    last call made is the summary request carrying the URL as typed,
    untrimmed. *)
Theorem submit_begins_run (w w' : World) :
  reachable w -> trim (url w) <> [] -> step Submit w = Some w' ->
  isLoading w' = true /\ pending w' = Some AwaitSummary /\
  error w' = None /\ summary w' = EmptyString /\ audioBuffer w' = None /\
  isPlaying w' = false /\ audioSourceRef w' = None /\ active w' = [] /\
  url w' = url w /\ audioContextRef w' = audioContextRef w /\
  (exists before, calls w' = before ++ [CallSummarize (url w)]) /\
  length (sources w') = length (sources w) /\
  formDisabled (render w') = true /\ toggleButton (render w') = None /\
  enabled Submit w' = false.
Proof.
  intros Hreach Hurl Hstep.
  pose proof (reachable_consistent w Hreach) as Hc.
  assert (Hc' : consistent w').
  { apply reachable_consistent. exact (reachable_step w Submit w' Hreach Hstep). }
  assert (Hu : is_blank (url w) = false).
  { destruct (is_blank (url w)) eqn:Hb; [|reflexivity].
    exfalso. apply Hurl, trim_nil_iff, Hb. }
  unfold step in Hstep. destruct (enabled Submit w); [|discriminate].
  cbn [fire] in Hstep.
  destruct (handleSubmit_result w Hc Hu) as (ss & cl & Hrun & Hlen).
  rewrite Hrun in Hstep. cbn in Hstep. injection Hstep as <-.
  repeat split; try reflexivity.
  - apply (idle_quiet _ Hc'). reflexivity.
  - exists cl. reflexivity.
  - exact Hlen.
Qed.

(** The theorem on the sample run followed by a start and a new submit. *)
Lemma submit_begins_run_witness :
  exists w w' : World,
    run (loaded_trace ++ [Click]) initial = Some w /\
    step Submit w = Some w' /\
    isLoading w' = true /\ active w' = [].
Proof.
  eexists. eexists. split; [vm_compute; reflexivity|].
  split; [vm_compute; reflexivity|].
  match goal with
  | |- isLoading ?w1 = _ /\ _ =>
      destruct (fun w0 Hr Hu Hs => submit_begins_run w0 w1 Hr Hu Hs)
        with (w0 := snd (togglePlayback
                           (default initial (run loaded_trace initial))))
        as (H1 & _ & _ & _ & _ & _ & _ & H8 & _)
  end.
  - apply (run_reachable (loaded_trace ++ [Click]) initial);
      [exact reachable_initial | vm_compute; reflexivity].
  - vm_compute. discriminate.
  - vm_compute. reflexivity.
  - split; [exact H1 | exact H8].
Defined.

End SubmitFacts.

Section RunFacts.
Import Audio GeminiService App Page.
Local Open Scope action_scope.
#[local] Arguments stopPlayback : simpl never.
#[local] Arguments togglePlayback : simpl never.

(** While loading no error is held. *)
Lemma loading_no_error (w : World) :
  reachable w -> isLoading w = true -> error w = None.
Proof.
  induction 1 as [|w e w' Hreach IH Hstep]; [discriminate|].
  pose proof (reachable_consistent w Hreach) as Hc.
  unfold step in Hstep. destruct (enabled e w) eqn:Hen; [|discriminate].
  injection Hstep as <-.
  destruct e as [u| |reply|reply created| | |id|id| ]; cbn [fire].
  - destruct w; exact IH.
  - cbn in Hen. destruct (is_blank (url w)) eqn:Hu.
    + unfold handleSubmit, bind, get. rewrite Hu.
      destruct w; cbn in *. destruct isLoading0; [discriminate|]. discriminate.
    + destruct (handleSubmit_result w Hc Hu) as (ss & cl & Hrun & _).
      rewrite Hrun. reflexivity.
  - unfold settle, try_catch, after_summary, bind, lift.
    destruct w as [u sm il er ab ip cx rf ss pd cl]. cbn in *.
    destruct reply; cbn; [exact IH|discriminate].
  - unfold settle, try_catch, after_speech, bind, lift.
    destruct w as [u sm il er ab ip cx rf ss pd cl]. cbn in *.
    destruct (generateSpeechFromText reply) as [audioB64|err]; cbn;
      [|discriminate].
    destruct (falsy audioB64); cbn; [discriminate|].
    unfold ensure_context, bind, get, lift. cbn.
    destruct cx as [ctx|]; cbn.
    + destruct (decode (default EmptyString audioB64)); cbn;
        [exact IH|discriminate].
    + destruct created; cbn; [|discriminate].
      destruct (decode (default EmptyString audioB64)); cbn;
        [exact IH|discriminate].
  - unfold bind, get. cbn.
    destruct w as [u sm il er ab ip cx rf ss pd cl]. cbn in *.
    destruct pd as [[| |r]|]; try discriminate.
    unfold settle, try_catch, after_buffer, bind, lift.
    destruct r; cbn; discriminate.
  - destruct (togglePlayback_frame w) as (_ & _ & Hl & He & _).
    rewrite Hl, He. exact IH.
  - destruct w; exact IH.
  - unfold bind, get, update_node, modify. cbn.
    destruct (sources w !! id ≫= onended) as [[]|]; destruct w; exact IH.
  - destruct w; exact IH.
Qed.

(** X5: in a reachable world that is loading, no error and no buffer are
    held, nothing plays or sounds, a toggle changes nothing at all, and the
    page shows neither the error banner nor the play button while the form
    is disabled. *)
Theorem loading_is_quiet (w : World) :
  reachable w -> isLoading w = true ->
  error w = None /\ audioBuffer w = None /\ isPlaying w = false /\
  audioSourceRef w = None /\ active w = [] /\
  togglePlayback w = (Ret tt, w) /\
  errorBanner (render w) = None /\ toggleButton (render w) = None /\
  formDisabled (render w) = true /\
  enabled Submit w = false /\ enabled (ChangeUrl []) w = false.
Proof.
  intros Hreach Hl. pose proof (reachable_consistent w Hreach) as Hc.
  pose proof (loading_no_error w Hreach Hl) as He.
  pose proof Hc as [_ [Hload Hp _ _]].
  destruct (Hp (proj1 Hload Hl)) as [Hab Hip].
  split; [exact He|]. split; [exact Hab|]. split; [exact Hip|].
  split; [exact (idle_no_session w Hc Hip)|].
  split; [exact (idle_quiet w Hc Hip)|].
  split; [unfold togglePlayback, bind, get; rewrite Hip, Hab; reflexivity|].
  unfold render. cbn. rewrite He, Hab, Hl.
  repeat split. destruct (nonempty (summary w)); reflexivity.
Qed.

(** The theorem on the run suspended at the speech synthesis. *)
Lemma loading_is_quiet_witness :
  exists w : World,
    run summarised_trace initial = Some w /\
    isLoading w = true /\
    togglePlayback w = (Ret tt, w) /\
    toggleButton (render w) = None.
Proof.
  eexists. split; [vm_compute; reflexivity|].
  split; [reflexivity|].
  match goal with
  | |- togglePlayback ?w0 = _ /\ _ =>
      destruct (loading_is_quiet w0) as (_ & _ & _ & _ & _ & H6 & _ & H8 & _)
  end.
  - apply (run_reachable summarised_trace initial);
      [exact reachable_initial | vm_compute; reflexivity].
  - reflexivity.
  - split; [exact H6 | exact H8].
Defined.

(** X6: a continuation of the pipeline either ends the run, and then the
    component is no longer loading, or suspends it at a later [await]: the
    number of awaits left goes strictly down, so a run ends after at most
    three continuations whatever the collaborators reply.  No other event
    than a continuation or a submit changes where the run is suspended. *)
Theorem continuation_progress (w w' : World) (e : Event) :
  step e w = Some w' ->
  (is_continuation e = true ->
     (awaits_left (pending w') < awaits_left (pending w))%nat /\
     (pending w' = None -> isLoading w' = false)) /\
  (is_continuation e = false -> e <> Submit ->
     pending w' = pending w /\ isLoading w' = isLoading w).
Proof.
  intros Hstep. unfold step in Hstep.
  destruct (enabled e w) eqn:Hen; [|discriminate]. injection Hstep as <-.
  destruct e as [u| |reply|reply created| | |id|id| ]; cbn [fire is_continuation];
    (split; [intros Hk; try discriminate Hk | intros Hk Hs; try discriminate Hk]).
  - destruct w; auto.
  - congruence.
  - unfold settle, try_catch, after_summary, bind, lift.
    destruct w as [u sm il er ab ip cx rf ss pd cl]. cbn in *.
    destruct pd as [[| |r]|]; try discriminate.
    destruct reply; cbn; split; (lia || congruence).
  - unfold settle, try_catch, after_speech, bind, lift.
    destruct w as [u sm il er ab ip cx rf ss pd cl]. cbn in *.
    destruct pd as [[| |r]|]; try discriminate.
    destruct (generateSpeechFromText reply) as [audioB64|err]; cbn;
      [|split; (lia || congruence)].
    destruct (falsy audioB64); cbn; [split; (lia || congruence)|].
    unfold ensure_context, bind, get, lift. cbn.
    destruct cx as [ctx|]; cbn.
    + destruct (decode (default EmptyString audioB64)); cbn;
        split; (lia || congruence).
    + destruct created; cbn; [|split; (lia || congruence)].
      destruct (decode (default EmptyString audioB64)); cbn;
        split; (lia || congruence).
  - unfold bind, get. cbn.
    destruct w as [u sm il er ab ip cx rf ss pd cl]. cbn in *.
    destruct pd as [[| |r]|]; try discriminate.
    unfold settle, try_catch, after_buffer, bind, lift.
    destruct r; cbn; split; (lia || congruence).
  - destruct (togglePlayback_frame w) as (_ & _ & Hl & _ & _ & Hp & _).
    auto.
  - destruct w; auto.
  - unfold bind, get, update_node, modify. cbn.
    destruct (sources w !! id ≫= onended) as [[]|]; destruct w; auto.
  - destruct w; auto.
Qed.

(** The theorem on the run suspended at the speech synthesis, continued by
    a speech reply with audio. *)
Lemma continuation_progress_witness :
  exists w w' : World,
    run summarised_trace initial = Some w /\
    step (SpeechReply (Ret (reply_with EmptyString (Some "AID/fw==")))
                      (Ret Running)) w = Some w' /\
    awaits_left (pending w) = 2%nat /\
    (awaits_left (pending w') < awaits_left (pending w))%nat.
Proof.
  eexists. eexists. split; [vm_compute; reflexivity|].
  split; [vm_compute; reflexivity|].
  split; [reflexivity|].
  match goal with
  | |- (awaits_left (pending ?w1) < awaits_left (pending ?w0))%nat =>
      destruct (continuation_progress w0 w1
                  (SpeechReply (Ret (reply_with EmptyString (Some "AID/fw==")))
                               (Ret Running))) as [Hk _]
  end.
  - vm_compute. reflexivity.
  - exact (proj1 (Hk eq_refl)).
Defined.

End RunFacts.

Section SuccessFacts.
Import Audio GeminiService App Page.
Local Open Scope action_scope.
#[local] Arguments stopPlayback : simpl never.
#[local] Arguments togglePlayback : simpl never.
#[local] Arguments decode : simpl never.
#[local] Arguments decodeAudioData : simpl never.

Lemma nonempty_falsy (s : string) :
  s <> EmptyString -> or_null (Some s) = Some s /\ falsy (Some s) = false.
Proof.
  intros Hs. cbn. apply String.eqb_neq in Hs. rewrite Hs. auto.
Qed.

(** X7: from a reachable world that is not loading, a submit of a URL that
    is not blank followed by a summary reply, a speech reply whose first
    candidate carries a non-empty payload that the byte decoder and the
    converter accept (at 24000 Hz, one channel), and the settled conversion
    ends the run with the converted buffer held, the summary text shown, no
    error, not loading, Idle with nothing sounding; an existing context is
    reused as it is, otherwise the created one is held; the play button is
    shown, with the Play icon, exactly when the summary text is not
    empty. *)
Theorem successful_run
    (w : World) (r1 r2 : GenerateContentResponse)
    (created : outcome ContextState) (b64 : string) (bytes : list byte)
    (buf : AudioBuffer) :
  reachable w -> isLoading w = false -> trim (url w) <> [] ->
  inline_audio r2 = Some b64 -> b64 <> EmptyString ->
  (audioContextRef w = None -> exists st, created = Ret st) ->
  decode b64 = Ret bytes ->
  (forall ctx, decodeAudioData bytes ctx 24000 1 = Ret buf) ->
  exists w',
    run [Submit; SummaryReply (Ret r1); SpeechReply (Ret r2) created;
         BufferSettled] w = Some w' /\
    audioBuffer w' = Some buf /\ summary w' = text r1 /\ error w' = None /\
    isLoading w' = false /\ pending w' = None /\
    isPlaying w' = false /\ active w' = [] /\
    (forall ctx, audioContextRef w = Some ctx ->
       audioContextRef w' = Some ctx) /\
    (forall st, audioContextRef w = None -> created = Ret st ->
       audioContextRef w' = Some {| state := st; resumePending := false |}) /\
    toggleButton (render w') =
      (if nonempty (text r1) then Some PlayIcon else None).
Proof.
  intros Hreach Hl Hurl Hpay Hne Hctx Hdec Hconv.
  pose proof (reachable_consistent w Hreach) as Hc.
  assert (Hu : is_blank (url w) = false).
  { destruct (is_blank (url w)) eqn:Hb; [|reflexivity].
    exfalso. apply Hurl, trim_nil_iff, Hb. }
  destruct (handleSubmit_result w Hc Hu) as (ss & cl & Hrun & Hlen).
  destruct (nonempty_falsy b64 Hne) as [Hor Hfalsy].
  assert (Hgen : generateSpeechFromText (Ret r2) = Ret (Some b64)).
  { cbn. rewrite Hpay, Hor. reflexivity. }
  assert (Hrunall : exists w',
    run [Submit; SummaryReply (Ret r1); SpeechReply (Ret r2) created;
         BufferSettled] w = Some w' /\
    w' = {| url := url w; summary := text r1; isLoading := false;
            error := None; audioBuffer := Some buf; isPlaying := false;
            audioContextRef :=
              match audioContextRef w with
              | Some ctx => Some ctx
              | None => match created with
                        | Ret st => Some {| state := st; resumePending := false |}
                        | Throw _ => None
                        end
              end;
            audioSourceRef := None; sources := ss; pending := None;
            calls := calls w' |}).
  { cbn [run]. unfold step at 1. cbn [enabled fire]. rewrite Hl. cbn [negb].
    rewrite Hrun. cbn [snd].
    unfold step at 1. cbn [enabled fire pending].
    unfold settle, try_catch, after_summary, bind, lift. cbn.
    unfold step at 1. cbn [enabled fire pending].
    unfold settle, try_catch, after_speech, bind, lift. rewrite Hgen, Hfalsy.
    cbn. unfold ensure_context, bind, get, lift. cbn.
    destruct (audioContextRef w) as [ctx|] eqn:Hcx; cbn.
    - rewrite Hdec. cbn. rewrite Hconv.
      unfold step. cbn. eexists. split; reflexivity.
    - destruct (Hctx eq_refl) as [st ->]. cbn.
      rewrite Hdec. cbn. rewrite Hconv.
      unfold step. cbn. eexists. split; reflexivity. }
  destruct Hrunall as (w' & Hrun' & Hw').
  exists w'. split; [exact Hrun'|].
  assert (Hc' : consistent w').
  { apply reachable_consistent.
    exact (run_reachable _ w w' Hreach Hrun'). }
  rewrite Hw' in *.
  split; [reflexivity|]. split; [reflexivity|]. split; [reflexivity|].
  split; [reflexivity|]. split; [reflexivity|]. split; [reflexivity|].
  split; [apply (idle_quiet _ Hc'); reflexivity|].
  split; [intros ctx Hcx; cbn; rewrite Hcx; reflexivity|].
  split; [intros st Hcx Hst; cbn; rewrite Hcx, Hst; reflexivity|].
  unfold render. cbn. destruct (nonempty (text r1)); reflexivity.
Qed.

(** The theorem on the initial world with the URL "http" typed: the sample
    run. *)
Lemma successful_run_witness :
  exists w' : World,
    run [Submit; SummaryReply (Ret (reply_with "news" None));
         SpeechReply (Ret (reply_with EmptyString (Some "AID/fw==")))
                     (Ret Suspended);
         BufferSettled] (set_url [104; 116; 116; 112]%N initial) = Some w' /\
    audioBuffer w' =
      Some {| sampleRate := 24000; numberOfChannels := 1;
              channelData := [[(-32768 # 32768); (32767 # 32768)]] |} /\
    toggleButton (render w') = Some PlayIcon.
Proof.
  destruct (successful_run (set_url [104; 116; 116; 112]%N initial)
              (reply_with "news" None)
              (reply_with EmptyString (Some "AID/fw=="))
              (Ret Suspended) "AID/fw==" [x00; x80; xff; x7f]
              {| sampleRate := 24000; numberOfChannels := 1;
                 channelData := [[(-32768 # 32768); (32767 # 32768)]] |})
    as (w' & Hrun & Hbuf & _ & _ & _ & _ & _ & _ & _ & _ & Hbtn).
  - apply (reachable_step initial (ChangeUrl [104; 116; 116; 112]%N));
      [exact reachable_initial | reflexivity].
  - reflexivity.
  - vm_compute. discriminate.
  - reflexivity.
  - discriminate.
  - intros _. exists Suspended. reflexivity.
  - vm_compute. reflexivity.
  - intros ctx. vm_compute. reflexivity.
  - exists w'. split; [exact Hrun|]. split; [exact Hbuf|exact Hbtn].
Defined.

End SuccessFacts.

Section PlaybackExtras.
Import Audio GeminiService App Page.
Local Open Scope action_scope.
#[local] Arguments stopPlayback : simpl never.
#[local] Arguments togglePlayback : simpl never.






(** X9: whenever the page shows the play button, a click on it works: with
    the Play icon it starts the held buffer on a new node, which is then
    the only one sounding, and the icon becomes Pause; with the Pause icon
    it stops the session, nothing sounds, and the icon becomes Play. *)
Theorem play_button_works (w w' : World) :
  reachable w -> step Click w = Some w' ->
  (toggleButton (render w) = Some PlayIcon ->
     isPlaying w' = true /\ active w' = [length (sources w)] /\
     toggleButton (render w') = Some PauseIcon) /\
  (toggleButton (render w) = Some PauseIcon ->
     isPlaying w' = false /\ audioSourceRef w' = None /\ active w' = [] /\
     toggleButton (render w') = Some PlayIcon).
Proof.
  intros Hreach Hstep. pose proof (reachable_consistent w Hreach) as Hc.
  assert (Hc' : consistent w').
  { apply reachable_consistent. exact (reachable_step w Click w' Hreach Hstep). }
  unfold step in Hstep. cbn [enabled fire] in Hstep. injection Hstep as <-.
  unfold render. cbn [toggleButton].
  destruct (togglePlayback_frame w) as (_ & Hsm & _ & _ & Hab & _).
  rewrite Hsm, Hab.
  destruct (nonempty (summary w)); [|split; discriminate].
  destruct (audioBuffer w) as [b|] eqn:Hb; [|split; discriminate].
  destruct (isPlaying w) eqn:Hip; (split; [|]); intros Hicon;
    try discriminate Hicon.
  - (* Pause: stop *)
    destruct Hc as [Hplay _].
    destruct (stopPlayback_result w Hplay) as (ss & cl & Hstop & _).
    assert (Hw' : togglePlayback w = stopPlayback w).
    { unfold togglePlayback, bind, get. rewrite Hip. reflexivity. }
    rewrite Hw' in *. rewrite Hstop in *. cbn [snd] in *.
    assert (Hidle : isPlaying (set_isPlaying false (set_audioSourceRef None
                      (set_sources ss (set_calls cl w)))) = false)
      by (destruct w; reflexivity).
    split; [exact Hidle|].
    split; [destruct w; reflexivity|].
    split; [exact (idle_quiet _ Hc' Hidle)|].
    rewrite Hidle. reflexivity.
  - (* Play: start *)
    destruct (audioContextRef w) as [ctx|] eqn:Hcx.
    + rewrite (togglePlayback_start w b ctx Hip Hb Hcx) in *. cbn [snd] in *.
      split; [destruct w; reflexivity|].
      split.
      * apply (active_snoc w _ (playing_node b)).
        -- destruct w; reflexivity.
        -- exact (idle_quiet w Hc Hip).
        -- reflexivity.
      * destruct w; reflexivity.
    + destruct Hc as [_ [_ _ Hbuf _]]. exfalso. apply Hbuf; congruence.
Qed.

(** The theorem on the world of the sample run. *)
Lemma play_button_works_witness :
  exists w w' : World,
    run loaded_trace initial = Some w /\
    step Click w = Some w' /\
    toggleButton (render w) = Some PlayIcon /\
    toggleButton (render w') = Some PauseIcon /\
    active w' = [0%nat].
Proof.
  eexists. eexists. split; [vm_compute; reflexivity|].
  split; [vm_compute; reflexivity|].
  split; [reflexivity|].
  match goal with
  | |- toggleButton (render ?w1) = _ /\ _ =>
      destruct (fun w0 Hr Hs => play_button_works w0 w1 Hr Hs)
        with (w0 := default initial (run loaded_trace initial))
        as [Hplay _]
  end.
  - apply (run_reachable loaded_trace initial);
      [exact reachable_initial | vm_compute; reflexivity].
  - vm_compute. reflexivity.
  - destruct (Hplay eq_refl) as (_ & H2 & H3). split; [exact H3 | exact H2].
Defined.

End PlaybackExtras.

Section ServiceExtras.
Import Audio GeminiService App Page.
Local Open Scope action_scope.
#[local] Arguments stopPlayback : simpl never.
#[local] Arguments togglePlayback : simpl never.

(** X10: [generateSpeechFromText] returns a string exactly when the first
    part of the first candidate of the reply carries a non-empty inline
    payload, and then returns that payload; it never returns the empty
    string; later candidates and later parts are not looked at. *)
Theorem speech_payload_is_first_nonempty :
  (forall reply s,
     generateSpeechFromText reply = Ret (Some s) <->
     exists r, reply = Ret r /\ inline_audio r = Some s /\ s <> EmptyString) /\
  (forall t c cs,
     inline_audio {| text := t; candidates := Some (c :: cs) |}
     = inline_audio {| text := t; candidates := Some [c] |}) /\
  (forall t p ps,
     inline_audio
       {| text := t;
          candidates :=
            Some [ {| content := Some {| parts := Some (p :: ps) |} |} ] |}
     = inlineData p ≫= data).
Proof.
  split; [|split].
  - intros reply s. split.
    + destruct reply as [r|e]; cbn; [|discriminate].
      intros H. injection H as H. exists r. split; [reflexivity|].
      destruct (inline_audio r) as [s'|]; cbn in H; [|discriminate].
      destruct (String.eqb s' EmptyString) eqn:He; [discriminate|].
      injection H as ->. split; [reflexivity|].
      apply String.eqb_neq. exact He.
    + intros (r & -> & Hr & Hs). cbn. rewrite Hr. cbn.
      apply String.eqb_neq in Hs. rewrite Hs. reflexivity.
  - reflexivity.
  - reflexivity.
Qed.

(** X11: whatever error the summary request raised, the run ends showing
    "Failed to get summary from the article URL." and no speech request is
    made; whatever error the speech request raised, it ends showing "Failed
    to convert summary to audio." with no context created and no decoding;
    in both cases the summary shown is unchanged and the form is enabled
    again. *)
Theorem service_failures_show_fixed_messages (w w' : World) (e : Exn) :
  (step (SummaryReply (Throw e)) w = Some w' ->
     error w' = Some "Failed to get summary from the article URL." /\
     calls w' = calls w /\ summary w' = summary w /\
     isLoading w' = false /\ pending w' = None) /\
  (forall created,
     step (SpeechReply (Throw e) created) w = Some w' ->
     error w' = Some "Failed to convert summary to audio." /\
     calls w' = calls w /\ summary w' = summary w /\
     audioContextRef w' = audioContextRef w /\
     isLoading w' = false /\ pending w' = None).
Proof.
  split.
  - intros Hstep. unfold step in Hstep.
    destruct (enabled _ w); [|discriminate]. injection Hstep as <-.
    destruct w; cbn. auto.
  - intros created Hstep. unfold step in Hstep.
    destruct (enabled _ w); [|discriminate]. injection Hstep as <-.
    destruct w; cbn. repeat split.
Qed.

(** The theorem on the run suspended at the speech synthesis, whose speech
    request fails with a network error. *)
Lemma service_failures_show_fixed_messages_witness :
  exists w w' : World,
    run summarised_trace initial = Some w /\
    step (SpeechReply (Throw (JsError "TypeError" "Failed to fetch"))
                      (Ret Running)) w = Some w' /\
    error w' = Some "Failed to convert summary to audio." /\
    calls w' = calls w.
Proof.
  eexists. eexists. split; [vm_compute; reflexivity|].
  split; [vm_compute; reflexivity|].
  match goal with
  | |- error ?w1 = _ /\ calls _ = calls ?w0 =>
      destruct (service_failures_show_fixed_messages w0 w1
                  (JsError "TypeError" "Failed to fetch")) as [_ Hspeech]
  end.
  destruct (Hspeech (Ret Running) eq_refl) as (H1 & H2 & _).
  split; [exact H1 | exact H2].
Defined.

(** X12: the summary shown is written only by a summary reply that
    succeeded, which shows its text, and by a submit that begins a run,
    which clears it; every other event, the failures of the audio among
    them, leaves it as it is. *)
Theorem summary_persists (w w' : World) (e : Event) :
  step e w = Some w' ->
  (forall r, e = SummaryReply (Ret r) ->
     summary w' = text r /\ pending w' = Some AwaitSpeech /\
     exists before, calls w' = before ++ [CallSpeech (text r)]) /\
  ((forall r, e <> SummaryReply (Ret r)) ->
   (e = Submit -> is_blank (url w) = true) ->
   summary w' = summary w).
Proof.
  intros Hstep. unfold step in Hstep.
  destruct (enabled e w) eqn:Hen; [|discriminate]. injection Hstep as <-.
  split.
  - intros r ->. cbn [fire].
    unfold settle, try_catch, after_summary, bind, lift.
    destruct w as [u sm il er ab ip cx rf ss pd cl]. cbn.
    split; [reflexivity|]. split; [reflexivity|]. exists cl. reflexivity.
  - intros Hnot Hsub.
    destruct e as [u| |reply|reply created| | |id|id| ]; cbn [fire].
    + destruct w; reflexivity.
    + unfold handleSubmit, bind, get. rewrite (Hsub eq_refl).
      destruct w; reflexivity.
    + destruct reply as [r|x]; [exfalso; exact (Hnot r eq_refl)|].
      destruct w; reflexivity.
    + unfold settle, try_catch, after_speech, bind, lift.
      destruct w as [u sm il er ab ip cx rf ss pd cl]. cbn in *.
      destruct (generateSpeechFromText reply) as [audioB64|err]; cbn;
        [|reflexivity].
      destruct (falsy audioB64); cbn; [reflexivity|].
      unfold ensure_context, bind, get, lift. cbn.
      destruct cx as [ctx|]; cbn.
      * destruct (decode (default EmptyString audioB64)); reflexivity.
      * destruct created; cbn; [|reflexivity].
        destruct (decode (default EmptyString audioB64)); reflexivity.
    + unfold bind, get. cbn.
      destruct w as [u sm il er ab ip cx rf ss pd cl]. cbn in *.
      destruct pd as [[| |r]|]; try reflexivity.
      unfold settle, try_catch, after_buffer, bind, lift.
      destruct r; reflexivity.
    + destruct (togglePlayback_frame w) as (_ & Hsm & _). exact Hsm.
    + destruct w; reflexivity.
    + unfold bind, get, update_node, modify. cbn.
      destruct (sources w !! id ≫= onended) as [[]|]; destruct w; reflexivity.
    + destruct w; reflexivity.
Qed.

(** The theorem on the run suspended at the speech synthesis, whose speech
    reply has no audio: the summary stays. *)
Lemma summary_persists_witness :
  exists w w' : World,
    run summarised_trace initial = Some w /\
    step (SpeechReply (Ret (reply_with EmptyString None)) (Ret Running)) w
      = Some w' /\
    summary w = "news" /\ summary w' = summary w.
Proof.
  eexists. eexists. split; [vm_compute; reflexivity|].
  split; [vm_compute; reflexivity|].
  split; [reflexivity|].
  match goal with
  | |- summary ?w1 = summary ?w0 =>
      destruct (summary_persists w0 w1
                  (SpeechReply (Ret (reply_with EmptyString None)) (Ret Running)))
        as [_ Hkeep]
  end.
  - vm_compute. reflexivity.
  - apply Hkeep; [intros r; discriminate | discriminate].
Defined.

End ServiceExtras.

Section StoreExtras.
Import Audio GeminiService App Page.
Local Open Scope action_scope.

Lemma aged_refl (n : SourceNode) : aged n n.
Proof. unfold aged. repeat split; auto. Qed.

Lemma aged_trans (a b c : SourceNode) : aged a b -> aged b c -> aged a c.
Proof.
  unfold aged. intros (B1 & S1 & T1 & P1 & O1) (B2 & S2 & T2 & P2 & O2).
  repeat split; try congruence; try lia.
  - destruct P2 as [P2|P2]; [|auto]. destruct P1 as [P1|P1]; [left|right]; congruence.
  - auto.
Qed.

Lemma alter_aged (f : SourceNode -> SourceNode) (l : list SourceNode)
    (i id : nat) (n : SourceNode) :
  (forall m, aged m (f m)) -> l !! id = Some n ->
  exists n', alter f i l !! id = Some n' /\ aged n n'.
Proof.
  intros Hf Hn. destruct (decide (i = id)) as [->|Hne].
  - exists (f n). rewrite list_lookup_alter_eq, Hn. split; [reflexivity|apply Hf].
  - exists n. rewrite list_lookup_alter_ne by assumption.
    split; [exact Hn|apply aged_refl].
Qed.

Lemma aged_with_onended (h : option EndedHandler) (m : SourceNode) :
  aged m (with_onended h m).
Proof. unfold aged. cbn. repeat split; auto. Qed.

Lemma aged_stopped (m : SourceNode) : aged m (stopped m).
Proof. unfold aged. cbn. repeat split; auto. Qed.

Lemma aged_played_out (m : SourceNode) : aged m (played_out m).
Proof. unfold aged. cbn. repeat split; auto. Qed.

Lemma aged_dequeued (m : SourceNode) : aged m (dequeued m).
Proof. unfold aged. cbn. repeat split; auto. Qed.

(** What [stopPlayback] does to the store and to the trace, in any world. *)
Lemma stopPlayback_store (w : World) :
  let w' := snd (stopPlayback w) in
  contexts_created w' = contexts_created w /\
  length (sources w') = length (sources w) /\
  (forall id n, sources w !! id = Some n ->
     exists n', sources w' !! id = Some n' /\ aged n n').
Proof.
  destruct w as [u sm il er ab ip cx rf ss pd cl].
  unfold stopPlayback, bind, get, contexts_created. cbn.
  destruct rf as [id|]; cbn.
  2:{ split; [reflexivity|]. split; [reflexivity|].
      intros j n Hn. exists n. split; [exact Hn|apply aged_refl]. }
  unfold stop, bind, get. cbn.
  destruct (alter (with_onended None) id ss !! id) as [m|]; cbn.
  - destruct (startCalls m) as [|k]; cbn.
    + rewrite !List.filter_app. cbn. rewrite !app_nil_r, length_alter.
      split; [reflexivity|]. split; [reflexivity|].
      intros j n Hn. apply alter_aged; [apply aged_with_onended|exact Hn].
    + rewrite !List.filter_app. cbn. rewrite !app_nil_r, !length_alter.
      split; [reflexivity|]. split; [reflexivity|].
      intros j n Hn.
      destruct (alter_aged (with_onended None) ss id j n
                  (aged_with_onended None) Hn) as (n1 & Hn1 & Ha1).
      destruct (alter_aged stopped _ id j n1 aged_stopped Hn1)
        as (n2 & Hn2 & Ha2).
      exists n2. split; [exact Hn2|exact (aged_trans _ _ _ Ha1 Ha2)].
  - rewrite !List.filter_app. cbn. rewrite !app_nil_r, length_alter.
    split; [reflexivity|]. split; [reflexivity|].
    intros j n Hn. apply alter_aged; [apply aged_with_onended|exact Hn].
Qed.

(** [handleSubmit] on a non-blank URL, in terms of [stopPlayback]. *)
Lemma handleSubmit_explicit (w : World) :
  is_blank (url w) = false ->
  let w0 := set_audioBuffer None (set_summary EmptyString
              (set_error None (set_isLoading true w))) in
  fst (stopPlayback w0) = Ret tt ->
  handleSubmit w =
    (Ret tt,
     set_pending (Some AwaitSummary)
       (set_calls (calls (snd (stopPlayback w0)) ++ [CallSummarize (url w)])
          (snd (stopPlayback w0)))).
Proof.
  intros Hu w0 Hret. unfold handleSubmit, bind, get. rewrite Hu.
  unfold setIsLoading, setError, setSummary, setAudioBuffer, modify.
  fold w0. destruct (stopPlayback w0) as [[[]|e] ws] eqn:Hs; cbn in Hret;
    [|discriminate].
  cbn. unfold settle, try_catch, begin_summary, bind, get, call, modify. cbn.
  assert (Hurl : url ws = url w).
  { pose proof (stopPlayback_frame w0) as Hf. rewrite Hs in Hf.
    cbn in Hf. destruct Hf as (Hf & _). rewrite Hf. destruct w; reflexivity. }
  rewrite Hurl. destruct ws; reflexivity.
Qed.

Lemma settle_sources (piece : M (option Stage)) (w : World) :
  sources (snd (settle piece w)) = sources (snd (piece w)).
Proof.
  unfold settle, try_catch, bind.
  destruct (piece w) as [[[stage|]|e] w1]; destruct w1; reflexivity.
Qed.

Lemma same_store_aged (w w' : World) :
  sources w' = sources w ->
  (length (sources w) <= length (sources w') <= S (length (sources w)))%nat /\
  (forall id n, sources w !! id = Some n ->
     exists n', sources w' !! id = Some n' /\ aged n n').
Proof.
  intros ->. split; [lia|].
  intros id n Hn. exists n. split; [exact Hn|apply aged_refl].
Qed.

(** X13: a step never removes or replaces a node of the store and adds at
    most one: every node keeps its index and its buffer, is never started
    again, and stays in its phase or becomes over; a node that is over
    stays over, so an instance that ended or was stopped never sounds
    again. *)
Theorem store_only_ages (w w' : World) (e : Event) :
  reachable w -> step e w = Some w' ->
  (length (sources w) <= length (sources w') <= S (length (sources w)))%nat /\
  (forall id n, sources w !! id = Some n ->
     exists n', sources w' !! id = Some n' /\ aged n n').
Proof.
  intros Hreach Hstep. pose proof (reachable_consistent w Hreach) as Hc.
  unfold step in Hstep. destruct (enabled e w) eqn:Hen; [|discriminate].
  injection Hstep as <-.
  destruct e as [u| |reply|reply created| | |id|id| ]; cbn [fire].
  - apply same_store_aged. destruct w; reflexivity.
  - destruct (is_blank (url w)) eqn:Hu.
    + apply same_store_aged. unfold handleSubmit, bind, get. rewrite Hu.
      destruct w; reflexivity.
    + pose (w0 := set_audioBuffer None (set_summary EmptyString
                    (set_error None (set_isLoading true w)))).
      assert (Hss : sources w0 = sources w) by (destruct w; reflexivity).
      assert (Hret : fst (stopPlayback w0) = Ret tt).
      { destruct (stopPlayback_result w0) as (ss & cl & Hstop & _).
        - destruct Hc as [Hplay _]. destruct w; exact Hplay.
        - rewrite Hstop. reflexivity. }
      rewrite (handleSubmit_explicit w Hu Hret). fold w0. cbn [snd].
      destruct (stopPlayback_store w0) as (_ & Hlen & Hold).
      cbn zeta in Hlen, Hold. rewrite Hss in Hlen, Hold.
      replace (sources (set_pending (Some AwaitSummary)
                 (set_calls (calls (snd (stopPlayback w0)) ++ [CallSummarize (url w)])
                    (snd (stopPlayback w0)))))
        with (sources (snd (stopPlayback w0)))
        by (destruct (snd (stopPlayback w0)); reflexivity).
      split; [lia|exact Hold].
  - apply same_store_aged. rewrite settle_sources.
    apply (piece_frame (after_summary reply) w). eauto.
  - apply same_store_aged. rewrite settle_sources.
    apply (piece_frame (after_speech reply created) w). eauto 6.
  - apply same_store_aged. unfold bind, get. cbn.
    destruct (pending w) as [[| |r]|]; try reflexivity.
    rewrite settle_sources. apply (piece_frame (after_buffer r) w). eauto 6.
  - destruct (isPlaying w) eqn:Hip.
    + replace (togglePlayback w) with (stopPlayback w)
        by (unfold togglePlayback, bind, get; rewrite Hip; reflexivity).
      destruct (stopPlayback_store w) as (_ & Hlen & Hold).
      cbn zeta in Hlen, Hold. split; [lia|exact Hold].
    + destruct (audioBuffer w) as [b|] eqn:Hab;
        [destruct (audioContextRef w) as [ctx|] eqn:Hcx|].
      * rewrite (togglePlayback_start w b ctx Hip Hab Hcx). cbn [snd].
        match goal with
        | |- context [sources (set_isPlaying true ?x)] =>
            replace (sources (set_isPlaying true x))
              with (sources w ++ [playing_node b])
              by (destruct w; reflexivity)
        end.
        rewrite length_app. cbn [length]. split; [lia|].
        intros id n Hn. exists n. split; [|apply aged_refl].
        apply lookup_app_l_Some. exact Hn.
      * apply same_store_aged.
        unfold togglePlayback, bind, get. rewrite Hip, Hab, Hcx. reflexivity.
      * apply same_store_aged.
        unfold togglePlayback, bind, get. rewrite Hip, Hab. reflexivity.
  - replace (sources (snd (update_node id played_out w)))
      with (alter played_out id (sources w))
      by (destruct w; reflexivity).
    rewrite length_alter. split; [lia|].
    intros j n Hn. apply alter_aged; [apply aged_played_out|exact Hn].
  - assert (Hs : sources (snd ((w0 <- get;;
                   update_node id dequeued;;
                   match sources w0 !! id ≫= onended with
                   | Some h => run_handler h
                   | None => ret tt
                   end) w)) = alter dequeued id (sources w)).
    { unfold bind, get, update_node, modify. cbn.
      destruct (sources w !! id ≫= onended) as [[]|]; destruct w; reflexivity. }
    rewrite Hs, length_alter. split; [lia|].
    intros j n Hn. apply alter_aged; [apply aged_dequeued|exact Hn].
  - apply same_store_aged. destruct w; reflexivity.
Qed.

(** The theorem on the sample run followed by a start, for the toggle that
    stops instance 0: it stays in the store, over. *)
Lemma store_only_ages_witness :
  exists w w' : World,
    run (loaded_trace ++ [Click]) initial = Some w /\
    step Click w = Some w' /\
    length (sources w) = 1%nat /\
    (length (sources w) <= length (sources w') <= S (length (sources w)))%nat.
Proof.
  eexists. eexists. split; [vm_compute; reflexivity|].
  split; [vm_compute; reflexivity|].
  split; [reflexivity|].
  match goal with
  | |- (length (sources ?w0) <= length (sources ?w1) <= _)%nat =>
      destruct (store_only_ages w0 w1 Click) as [Hlen _]
  end.
  - apply (run_reachable (loaded_trace ++ [Click]) initial);
      [exact reachable_initial | vm_compute; reflexivity].
  - vm_compute. reflexivity.
  - exact Hlen.
Defined.

End StoreExtras.

Section ContextExtras.
Import Audio GeminiService App Page.
Local Open Scope action_scope.

Ltac count_contexts :=
  unfold contexts_created; cbn;
  rewrite ?List.filter_app; cbn;
  rewrite ?app_nil_r, ?length_app; cbn; try lia; try reflexivity.

(** X14: the device context is created lazily and kept: a step in a world
    that holds a context leaves a context held and makes no
    [new AudioContext] call; a step in a world that holds none can only
    come to hold one by a speech continuation, with exactly one
    [new AudioContext] call. *)
Theorem context_is_kept (w w' : World) (e : Event) :
  reachable w -> step e w = Some w' ->
  (audioContextRef w <> None ->
     audioContextRef w' <> None /\
     contexts_created w' = contexts_created w) /\
  (audioContextRef w = None -> audioContextRef w' <> None ->
     (exists reply st, e = SpeechReply reply (Ret st) /\
        audioContextRef w' = Some {| state := st; resumePending := false |}) /\
     contexts_created w' = S (contexts_created w)).
Proof.
  intros Hreach Hstep. pose proof (reachable_consistent w Hreach) as Hc.
  unfold step in Hstep. destruct (enabled e w) eqn:Hen; [|discriminate].
  injection Hstep as <-.
  destruct e as [u| |reply|reply created| | |id|id| ]; cbn [fire].
  - destruct w; cbn. split; [auto|]. intros -> H. congruence.
  - destruct (is_blank (url w)) eqn:Hu.
    + unfold handleSubmit, bind, get. rewrite Hu.
      destruct w; cbn. split; [auto|]. intros -> H. congruence.
    + pose (w0 := set_audioBuffer None (set_summary EmptyString
                    (set_error None (set_isLoading true w)))).
      assert (Hret : fst (stopPlayback w0) = Ret tt).
      { destruct (stopPlayback_result w0) as (ss & cl & Hstop & _).
        - destruct Hc as [Hplay _]. destruct w; exact Hplay.
        - rewrite Hstop. reflexivity. }
      rewrite (handleSubmit_explicit w Hu Hret). fold w0. cbn [snd].
      destruct (stopPlayback_store w0) as (Hcount & _).
      destruct (stopPlayback_frame w0) as (_ & _ & _ & _ & _ & Hcx & _).
      cbn zeta in Hcount, Hcx.
      assert (Hcx0 : audioContextRef w0 = audioContextRef w)
        by (destruct w; reflexivity).
      assert (Hcount0 : contexts_created w0 = contexts_created w)
        by (destruct w; reflexivity).
      destruct (snd (stopPlayback w0)) as [u1 sm1 il1 er1 ab1 ip1 cx1 rf1 ss1 pd1 cl1].
      cbn [audioContextRef set_pending set_calls contexts_created calls] in *.
      subst cx1. rewrite Hcx0.
      unfold contexts_created in *.
      cbn [calls set_pending set_calls] in *.
      rewrite List.filter_app. cbn [List.filter is_new_context].
      rewrite app_nil_r, Hcount, Hcount0.
      split; [auto|]. intros H1 H2. congruence.
  - unfold settle, try_catch, after_summary, bind, lift.
    destruct w as [u sm il er ab ip cx rf ss pd cl]. cbn in *.
    destruct reply; cbn.
    + split; [intros Hcx; split; [exact Hcx|count_contexts]|].
      intros -> H. congruence.
    + split; [auto|]. intros -> H. congruence.
  - unfold settle, try_catch, after_speech, bind, lift.
    destruct w as [u sm il er ab ip cx rf ss pd cl]. cbn in *.
    destruct (generateSpeechFromText reply) as [audioB64|err]; cbn.
    2:{ split; [auto|]. intros -> H. congruence. }
    destruct (falsy audioB64); cbn.
    { split; [auto|]. intros -> H. congruence. }
    unfold ensure_context, bind, get, lift. cbn.
    destruct cx as [ctx|]; cbn.
    + destruct (decode (default EmptyString audioB64)); cbn;
        (split; [intros _; split; [discriminate|count_contexts]|congruence]).
    + destruct created as [st|x]; cbn.
      * destruct (decode (default EmptyString audioB64)); cbn;
          (split; [congruence|]); intros _ _;
          (split; [exists reply, st; auto|count_contexts]).
      * split; [congruence|]. intros _ H. congruence.
  - unfold bind, get. cbn.
    destruct w as [u sm il er ab ip cx rf ss pd cl]. cbn in *.
    destruct pd as [[| |r]|]; try discriminate.
    unfold settle, try_catch, after_buffer, bind, lift.
    destruct r; cbn; (split; [auto|]); intros -> H; congruence.
  - destruct (isPlaying w) eqn:Hip.
    + replace (togglePlayback w) with (stopPlayback w)
        by (unfold togglePlayback, bind, get; rewrite Hip; reflexivity).
      destruct (stopPlayback_store w) as (Hcount & _).
      destruct (stopPlayback_frame w) as (_ & _ & _ & _ & _ & Hcx & _).
      cbn zeta in Hcount, Hcx. rewrite Hcx, Hcount.
      split; [auto|]. intros H1 H2. congruence.
    + destruct (audioBuffer w) as [b|] eqn:Hab;
        [destruct (audioContextRef w) as [ctx|] eqn:Hcx|].
      * rewrite (togglePlayback_start w b ctx Hip Hab Hcx). cbn [snd].
        split; [|congruence]. intros _.
        split; [destruct w; discriminate|].
        unfold start_calls. destruct w; destruct (state ctx); count_contexts.
      * replace (togglePlayback w) with (Ret tt, w)
          by (unfold togglePlayback, bind, get; rewrite Hip, Hab, Hcx; reflexivity).
        cbn. rewrite Hcx. split; congruence.
      * replace (togglePlayback w) with (Ret tt, w)
          by (unfold togglePlayback, bind, get; rewrite Hip, Hab; reflexivity).
        cbn. split; [auto|]. intros H1 H2. congruence.
  - destruct w; cbn. split; [auto|]. intros -> H. congruence.
  - unfold bind, get, update_node, modify. cbn.
    destruct (sources w !! id ≫= onended) as [[]|]; destruct w; cbn;
      (split; [auto|]); intros -> H; congruence.
  - destruct w as [u sm il er ab ip cx rf ss pd cl]. cbn in *.
    destruct cx; [|discriminate].
    split; [intros _; split; [discriminate|reflexivity]|congruence].
Qed.

(** The theorem on the sample run followed by a second run: the context of
    the first is kept. *)
Lemma context_is_kept_witness :
  exists w w' : World,
    run (loaded_trace ++ summarised_trace) initial = Some w /\
    step (SpeechReply (Ret (reply_with EmptyString (Some "AID/fw==")))
                      (Ret Running)) w = Some w' /\
    audioContextRef w <> None /\
    audioContextRef w' <> None /\
    contexts_created w' = contexts_created w.
Proof.
  eexists. eexists. split; [vm_compute; reflexivity|].
  split; [vm_compute; reflexivity|].
  split; [discriminate|].
  match goal with
  | |- audioContextRef ?w1 <> None /\ _ = contexts_created ?w0 =>
      destruct (context_is_kept w0 w1
                  (SpeechReply (Ret (reply_with EmptyString (Some "AID/fw==")))
                               (Ret Running))) as [Hkeep _]
  end.
  - apply (run_reachable (loaded_trace ++ summarised_trace) initial);
      [exact reachable_initial | vm_compute; reflexivity].
  - vm_compute. reflexivity.
  - apply Hkeep. discriminate.
Defined.

End ContextExtras.
